(** * MemStax: the paged arena, its event callback and its trace log

    A shallow embedding of [MemStax.h] (namespace [Stax]): the classes
    [MemTrace], [MemCallback] and [MemHeap], followed by the properties of
    the specification that concern them.

    Conventions of the embedding.
    - [size_t] is a 64-bit unsigned integer and [uint32_t] a 32-bit one; both
      are values of [Z] and every arithmetic result is reduced explicitly
      ([wrap64], [wrap32]).
    - Output parameters ([MEMERR *error], [T *&p_Obj]) are passed in and
      handed back; a null [MEMERR *] is [None].
    - Everything that outlives one object is kept in a [World]: the static
      counters of [MemCallback], the file system, the console, the objects
      constructed in page memory, the supply of fresh page buffers and the
      buffers already released.
    - Operations that stop the program (calling a null function pointer, the
      remainder of a division by zero) yield [None]; every operation
      therefore lives in the option monad.  Reads and writes outside a
      buffer do not stop the program here: the page table is a map from
      indices to cells and a placement past the end of a page is recorded
      like any other, so that bounds can be stated and checked.
    - [delete] runs the destructor, after which the object is no longer
      alive, and hands the address to the deallocation function.  That
      function accepts the first byte of a buffer that [new] returned and
      that has not been handed back yet; the buffer is then recorded as
      released.  Any other address (inside a buffer, in a buffer already
      released, computed from a cell never assigned) is undefined behaviour,
      on which the program cannot be taken to continue: [None], like the
      other operations that stop the program.  The arena keeps a page whose
      buffer was released, and objects placed in it stay on record.
    - Whether [new] or a constructor throws is not decided by the program;
      it is an [Outcome] supplied with each call. *)

From stdpp Require Import base option strings gmap pretty.
From Stdlib Require Import ZArith Lia.

Open Scope Z_scope.

(** ** Enumerations *)

Inductive MEMERR :=
| MEMERR_NO_ERR
| MEMERR_UNKNOWN
| MEMERR_OUT_OF_MEM
| MEMERR_INVALID_MEM
| MEMERR_CORRUPT_MEM
| MEMERR_DOUBLE_ALLOC
| MEMERR_UNINITALIZED
| MEMERR_INVALID_FUNCTION_PARAMETER
| MEMERR_INVALID_FILE.

#[global] Instance MEMERR_eq_dec : EqDecision MEMERR.
Proof. solve_decision. Defined.

Definition MEMFLAGS_NONE : Z := 0.
Definition MEMFLAGS_DISABLE_DEBUG_MSG : Z := 1.
Definition MEMFLAGS_OVERRIDE_DOUBLE_ALLOC : Z := 2.

Inductive MEMCALL :=
| MEMCALL_ALLOC
| MEMCALL_DEALLOC
| MEMCALL_MEM_ERR
| MEMCALL_INVALID_MEM.

#[global] Instance MEMCALL_eq_dec : EqDecision MEMCALL.
Proof. solve_decision. Defined.

(** What a [new] expression or a constructor call does. *)
Inductive Outcome :=
| Returns
| ThrowsBadAlloc
| ThrowsException.

(** ** Machine integers *)

Definition wrap64 (x : Z) : Z := x mod 2 ^ 64.
Definition wrap32 (x : Z) : Z := x mod 2 ^ 32.

(** [std::to_string] on a [size_t]. *)
Definition to_string (n : Z) : string := pretty (Z.to_N n).

(** ** Memory and the rest of the process *)

(** A page buffer obtained from [new uint8_t[n]]. *)
Record Page := { page_id : nat; page_cap : Z }.

#[global] Instance Page_eq_dec : EqDecision Page.
Proof. solve_decision. Defined.

(** A pointer into a page; [ptr_page = None] is a pointer computed from a
    table cell that was never assigned. *)
Record ptr := { ptr_page : option Page; ptr_off : Z }.

#[global] Instance ptr_eq_dec : EqDecision ptr.
Proof. solve_decision. Defined.

(** An object constructed by placement [new]: where it is, [sizeof(T)], and
    the bytes set aside for it. *)
Record Obj := { obj_at : ptr; obj_size : Z; obj_reserved : Z }.

Record World := {
  (* static inline members of MemCallback *)
  allocs : Z;
  deallocs : Z;
  memInUse : Z;
  (* the file system: contents by path, and the paths that cannot be opened *)
  files : gmap string string;
  denied : gset string;
  (* std::cout *)
  console : string;
  (* objects alive in page memory *)
  objects : list Obj;
  (* identity of the next buffer returned by new *)
  next_page : nat;
  (* buffers handed back to the deallocation function *)
  released : gset nat
}.

Definition set_counters (a d m : Z) (w : World) : World :=
  {| allocs := a; deallocs := d; memInUse := m; files := files w;
     denied := denied w; console := console w; objects := objects w;
     next_page := next_page w; released := released w |}.

Definition set_files (f : gmap string string) (w : World) : World :=
  {| allocs := allocs w; deallocs := deallocs w; memInUse := memInUse w;
     files := f; denied := denied w; console := console w;
     objects := objects w; next_page := next_page w; released := released w |}.

Definition set_console (c : string) (w : World) : World :=
  {| allocs := allocs w; deallocs := deallocs w; memInUse := memInUse w;
     files := files w; denied := denied w; console := c;
     objects := objects w; next_page := next_page w; released := released w |}.

Definition set_objects (o : list Obj) (w : World) : World :=
  {| allocs := allocs w; deallocs := deallocs w; memInUse := memInUse w;
     files := files w; denied := denied w; console := console w;
     objects := o; next_page := next_page w; released := released w |}.

Definition set_next_page (n : nat) (w : World) : World :=
  {| allocs := allocs w; deallocs := deallocs w; memInUse := memInUse w;
     files := files w; denied := denied w; console := console w;
     objects := objects w; next_page := n; released := released w |}.

Definition set_released (r : gset nat) (w : World) : World :=
  {| allocs := allocs w; deallocs := deallocs w; memInUse := memInUse w;
     files := files w; denied := denied w; console := console w;
     objects := objects w; next_page := next_page w; released := r |}.

(** [std::endl] *)
Definition endl : string := String (Ascii.ascii_of_nat 10) EmptyString.

(** Assignment through a [MEMERR *] that may be null. *)
Definition store (error : option MEMERR) (e : MEMERR) : option MEMERR :=
  match error with Some _ => Some e | None => None end.

Definition is_empty (s : string) : bool :=
  match s with EmptyString => true | _ => false end.

(** ** std::fstream *)

Inductive openmode := out_trunc | out_app.

(** The file the stream has open, if any, and its failbit. *)
Record fstream := { open_path : option string; failbit : bool }.

Definition fstream_init : fstream := {| open_path := None; failbit := false |}.

Definition is_open (s : fstream) : bool :=
  match open_path s with Some _ => true | None => false end.

(** [basic_fstream::open]: the file buffer refuses to open when it already
    has a file; on success the state is cleared, on failure failbit is set.
    Opening for output creates a missing file; [trunc] empties it. *)
Definition fstream_open (path : string) (mode : openmode) (s : fstream) (w : World)
  : fstream * World :=
  match open_path s with
  | Some _ => ({| open_path := open_path s; failbit := true |}, w)
  | None =>
      if decide (path ∈ denied w) then
        ({| open_path := None; failbit := true |}, w)
      else
        let old := default EmptyString (files w !! path) in
        let new := match mode with out_trunc => EmptyString | out_app => old end in
        ({| open_path := Some path; failbit := false |},
         set_files (<[path := new]> (files w)) w)
  end.

(** [basic_fstream::close]: closing a stream with no file sets failbit. *)
Definition fstream_close (s : fstream) : fstream :=
  match open_path s with
  | Some _ => {| open_path := None; failbit := failbit s |}
  | None => {| open_path := None; failbit := true |}
  end.

(** [*file << msg << std::endl] on a stream: nothing is written unless the
    stream is good and has a file. *)
Definition fstream_write_line (msg : string) (s : fstream) (w : World) : World :=
  if failbit s then w
  else match open_path s with
       | Some p =>
           set_files (<[p := default EmptyString (files w !! p) +:+ msg +:+ endl]> (files w)) w
       | None => w
       end.

(** ** class MemTrace *)

Module MemTrace.

(** A [memtracefunc]: the default [PrintMessage], or a function of the
    caller, known by the code it returns (it is told whether it received a
    file). *)
Inductive memtracefunc :=
| DefaultTrace
| CustomTrace (f : string → bool → MEMERR).

Record t := {
  traceLog : bool;
  traceFunc : option memtracefunc;
  traceFile : fstream;
  filePath : string
}.

Definition set_traceFile (f : fstream) (m : t) : t :=
  {| traceLog := traceLog m; traceFunc := traceFunc m; traceFile := f;
     filePath := filePath m |}.

Definition set_traceLog (b : bool) (m : t) : t :=
  {| traceLog := b; traceFunc := traceFunc m; traceFile := traceFile m;
     filePath := filePath m |}.

(** [MemTrace::PrintMessage]; [file = None] is the null pointer. *)
Definition PrintMessage (msg : string) (file : option fstream) (w : World)
  : MEMERR * World :=
  match file with
  | None => (MEMERR_NO_ERR, set_console (console w +:+ msg +:+ endl) w)
  | Some f => (MEMERR_NO_ERR, fstream_write_line msg f w)
  end.

(** A call through the [traceFunc] pointer; the null pointer cannot be
    called. *)
Definition call_traceFunc (tf : option memtracefunc) (msg : string)
    (file : option fstream) (w : World) : option (MEMERR * World) :=
  match tf with
  | None => None
  | Some DefaultTrace => Some (PrintMessage msg file w)
  | Some (CustomTrace f) => Some (f msg (bool_decide (is_Some file)), w)
  end.

(** [MemTrace::LogMessage] *)
Definition LogMessage (m : t) (msg : string) (w : World)
  : option (MEMERR * World) :=
  if negb (traceLog m) then Some (MEMERR_UNINITALIZED, w)
  else if is_open (traceFile m) then
    call_traceFunc (traceFunc m) msg (Some (traceFile m)) w
  else
    call_traceFunc (traceFunc m) msg None w.

(** [MemTrace::ClearFile] *)
Definition ClearFile (m : t) (w : World) : MEMERR * t * World :=
  if is_empty (filePath m) then (MEMERR_INVALID_FILE, m, w)
  else
    let f0 := if negb (is_open (traceFile m))
              then fstream_close (traceFile m) else traceFile m in
    let '(f1, w1) := fstream_open (filePath m) out_trunc f0 w in
    if negb (is_open f1) then (MEMERR_INVALID_FILE, set_traceFile f1 m, w1)
    else
      let f2 := fstream_close f1 in
      let '(f3, w2) := fstream_open (filePath m) out_app f2 w1 in
      if negb (is_open f3) then (MEMERR_INVALID_FILE, set_traceFile f3 m, w2)
      else (MEMERR_NO_ERR, set_traceFile f3 m, w2).

(** [MemTrace::GetFile] *)
Definition GetFile (m : t) (error : option MEMERR)
  : option fstream * option MEMERR :=
  if negb (is_open (traceFile m)) then (None, store error MEMERR_INVALID_FILE)
  else (Some (traceFile m), store error MEMERR_NO_ERR).

(** The constructor [MemTrace::MemTrace]. *)
Definition ctor (tracePath : string) (clearContents : bool)
    (error : option MEMERR) (newTraceFunc : option memtracefunc) (w : World)
  : t * option MEMERR * World :=
  let m0 := {| traceLog := false; traceFunc := newTraceFunc;
               traceFile := fstream_init; filePath := tracePath |} in
  let error1 := match newTraceFunc with
                | None => store error MEMERR_INVALID_FUNCTION_PARAMETER
                | Some _ => error
                end in
  let m1 := set_traceLog true m0 in
  if is_empty tracePath then (m1, store error1 MEMERR_NO_ERR, w)
  else
    let '(m2, w2) :=
      if clearContents then
        let '(_, m, w') := ClearFile m1 w in (m, w')
      else
        let '(f, w') := fstream_open tracePath out_app (traceFile m1) w in
        (set_traceFile f m1, w') in
    let '(m3, error2) :=
      if negb (is_open (traceFile m2)) then
        (set_traceLog false m2, store error1 MEMERR_INVALID_FILE)
      else (m2, error1) in
    (m3, store error2 MEMERR_NO_ERR, w2).

End MemTrace.

(** ** class MemCallback *)

Module MemCallback.

(** A [memcallbackfunc]: the default [CallbackFunc], or a function of the
    caller, known by the code it returns. *)
Inductive memcallbackfunc :=
| DefaultCallback
| CustomCallback (f : MEMCALL → Z → MEMERR).

(** [traceClass] points to a trace log that no operation below modifies; it
    is kept by value. *)
Record t := {
  callbackInit : bool;
  traceClass : option MemTrace.t;
  callback : option memcallbackfunc
}.

(** The constructor.  [callbackInit] is assigned only when the callback is
    not null; otherwise it keeps what the storage held, [raw]. *)
Definition ctor (raw : bool) (in_traceClass : option MemTrace.t)
    (in_callback : option memcallbackfunc) (error : option MEMERR)
  : t * option MEMERR :=
  match in_callback with
  | Some _ =>
      ({| callbackInit := true; traceClass := in_traceClass;
          callback := in_callback |}, error)
  | None =>
      ({| callbackInit := raw; traceClass := in_traceClass;
          callback := in_callback |},
       store error MEMERR_INVALID_FUNCTION_PARAMETER)
  end.

(** [MemCallback::CallbackFunc], the default callback.  The counters are
    static members: they live in the [World], not in a [t]. *)
Definition CallbackFunc (msg : MEMCALL) (memSize : Z)
    (traceCall : option MemTrace.t) (w : World) : option (MEMERR * World) :=
  let '(w1, traceMsg) :=
    match msg with
    | MEMCALL_ALLOC =>
        (set_counters (wrap32 (allocs w + 1)) (deallocs w)
           (wrap64 (memInUse w + memSize)) w,
         "Allocating Memory of size: " +:+ to_string memSize)
    | MEMCALL_DEALLOC =>
        (set_counters (allocs w) (wrap32 (deallocs w + 1))
           (wrap64 (memInUse w - memSize)) w,
         "Deallocating Memory of size: " +:+ to_string memSize)
    | MEMCALL_MEM_ERR =>
        (w, "Error Allocating Memory of size: " +:+ to_string memSize)
    | MEMCALL_INVALID_MEM =>
        (w, "Error Accessing Memory of size: " +:+ to_string memSize)
    end in
  match traceCall with
  | Some tr =>
      '(_, w2) ← MemTrace.LogMessage tr traceMsg w1;
      Some (MEMERR_NO_ERR, w2)
  | None => Some (MEMERR_NO_ERR, w1)
  end.

(** A call through the [callback] pointer. *)
Definition call_callback (f : option memcallbackfunc) (msg : MEMCALL)
    (memSize : Z) (traceCall : option MemTrace.t) (w : World)
  : option (MEMERR * World) :=
  match f with
  | None => None
  | Some DefaultCallback => CallbackFunc msg memSize traceCall w
  | Some (CustomCallback g) => Some (g msg memSize, w)
  end.

(** [MemCallback::PerformCallback] *)
Definition PerformCallback (c : t) (msg : MEMCALL) (memSize : Z) (w : World)
  : option (MEMERR * World) :=
  if callbackInit c then call_callback (callback c) msg memSize (traceClass c) w
  else Some (MEMERR_UNINITALIZED, w).

(** [MemCallback::GetMemCallback] *)
Definition GetMemCallback (c : t) : option memcallbackfunc := callback c.

(** The counters as read through an instance: the members are static, so
    every instance names the same three variables. *)
Definition counters (c : t) (w : World) : Z * Z * Z :=
  (allocs w, deallocs w, memInUse w).

End MemCallback.

(** ** class MemHeap *)

Module MemHeap.

(** The array behind [uint8_t **pages]: the number of cells that [new]
    provided and the cells that have been assigned. *)
Record PageTable := { table_len : Z; cells : gmap Z Page }.

Record t := {
  heapInitalized : bool;
  memFlags : Z;
  callback : option MemCallback.t;
  allignment : Z;
  pageSize : Z;
  numOfPages : Z;
  maxPages : Z;
  maxPageSize : Z;
  currentPage : option Page;
  pages : PageTable
}.

Definition defaultPageSize : Z := 1024.
Definition defaultNumOfPages : Z := 10.
Definition defaultAllignment : Z := 8.

(** [sizeof(size_t)], the size reported when a page or the table cannot be
    allocated. *)
Definition sizeof_size_t : Z := 8.

Definition set_numOfPages (n : Z) (h : t) : t :=
  {| heapInitalized := heapInitalized h; memFlags := memFlags h;
     callback := callback h; allignment := allignment h;
     pageSize := pageSize h; numOfPages := n; maxPages := maxPages h;
     maxPageSize := maxPageSize h; currentPage := currentPage h;
     pages := pages h |}.

Definition set_pages (p : PageTable) (h : t) : t :=
  {| heapInitalized := heapInitalized h; memFlags := memFlags h;
     callback := callback h; allignment := allignment h;
     pageSize := pageSize h; numOfPages := numOfPages h;
     maxPages := maxPages h; maxPageSize := maxPageSize h;
     currentPage := currentPage h; pages := p |}.

Definition set_pageSize (n : Z) (h : t) : t :=
  {| heapInitalized := heapInitalized h; memFlags := memFlags h;
     callback := callback h; allignment := allignment h;
     pageSize := n; numOfPages := numOfPages h; maxPages := maxPages h;
     maxPageSize := maxPageSize h; currentPage := currentPage h;
     pages := pages h |}.

(** The constructor initialises three members; the others keep whatever the
    storage [raw] of the object held. *)
Definition ctor (raw : t) : t :=
  {| heapInitalized := false; memFlags := 0; callback := None;
     allignment := allignment raw; pageSize := pageSize raw;
     numOfPages := numOfPages raw; maxPages := maxPages raw;
     maxPageSize := maxPageSize raw; currentPage := currentPage raw;
     pages := pages raw |}.

(** [pages[i]] *)
Definition page_at (h : t) (i : Z) : option Page := cells (pages h) !! i.

(** The handler shared by every [catch] block: report the failed size to the
    callback when there is one. *)
Definition report_mem_err (h : t) (size : Z) (w : World)
  : option (MEMERR * World) :=
  match callback h with
  | Some c => MemCallback.PerformCallback c MEMCALL_MEM_ERR size w
  | None => Some (MEMERR_NO_ERR, w)
  end.

(** [MemHeap::AllocatePage]; [o] is what [new uint8_t[maxPageSize]] does. *)
Definition AllocatePage (o : Outcome) (h : t) (w : World)
  : option (MEMERR * t * World) :=
  let h1 := set_numOfPages (wrap64 (numOfPages h + 1)) h in
  if numOfPages h1 >? maxPages h1 then
    Some (MEMERR_OUT_OF_MEM, set_numOfPages (wrap64 (numOfPages h1 - 1)) h1, w)
  else
    match o with
    | Returns =>
        let p := {| page_id := next_page w; page_cap := maxPageSize h1 |} in
        let tbl := {| table_len := table_len (pages h1);
                      cells := <[wrap64 (numOfPages h1 - 1) := p]> (cells (pages h1)) |} in
        Some (MEMERR_NO_ERR, set_pages tbl h1, set_next_page (S (next_page w)) w)
    | ThrowsBadAlloc =>
        '(error, w1) ← report_mem_err h1 sizeof_size_t w;
        if decide (error ≠ MEMERR_NO_ERR) then Some (error, h1, w1)
        else Some (MEMERR_OUT_OF_MEM,
                   set_numOfPages (wrap64 (numOfPages h1 - 1)) h1, w1)
    | ThrowsException =>
        '(error, w1) ← report_mem_err h1 sizeof_size_t w;
        if decide (error ≠ MEMERR_NO_ERR) then Some (error, h1, w1)
        else Some (MEMERR_UNKNOWN,
                   set_numOfPages (wrap64 (numOfPages h1 - 1)) h1, w1)
    end.

(** [MemHeap::AllocatePagePtrs]; [o] is what [new uint8_t*[numOfPages]]
    does.  The second handler has no [return] of its own. *)
Definition AllocatePagePtrs (o : Outcome) (h : t) (w : World)
  : option (MEMERR * t * World) :=
  match o with
  | Returns =>
      Some (MEMERR_NO_ERR,
            set_pages {| table_len := numOfPages h; cells := ∅ |} h, w)
  | ThrowsBadAlloc =>
      '(error, w1) ← report_mem_err h sizeof_size_t w;
      if decide (error ≠ MEMERR_NO_ERR) then Some (error, h, w1)
      else Some (MEMERR_OUT_OF_MEM, h, w1)
  | ThrowsException =>
      '(error, w1) ← report_mem_err h sizeof_size_t w;
      if decide (error ≠ MEMERR_NO_ERR) then Some (error, h, w1)
      else Some (MEMERR_NO_ERR, h, w1)
  end.

(** [MemHeap::InitalizeHeapMem]; [o_ptrs] and [o_page] are the outcomes of
    the two [new] expressions. *)
Definition InitalizeHeapMem (in_pageSize in_numOfPages in_allignment : Z)
    (callbackClass : option MemCallback.t) (o_ptrs o_page : Outcome)
    (h : t) (w : World) : option (MEMERR * t * World) :=
  '(error, h1, w1) ← AllocatePagePtrs o_ptrs h w;
  if decide (error ≠ MEMERR_NO_ERR) then Some (error, h1, w1)
  else
    '(error, h2, w2) ← AllocatePage o_page h1 w1;
    if decide (error ≠ MEMERR_NO_ERR) then Some (error, h2, w2)
    else
      Some (MEMERR_NO_ERR,
            {| heapInitalized := true;
               memFlags := memFlags h2;
               callback := match callbackClass with
                           | Some c => Some c
                           | None => callback h2
                           end;
               allignment := in_allignment;
               pageSize := 0;
               numOfPages := numOfPages h2;
               maxPages := in_numOfPages;
               maxPageSize := in_pageSize;
               currentPage := page_at h2 (wrap64 (numOfPages h2 - 1));
               pages := pages h2 |},
            w2).

(** [MemHeap::TerminateHeapMem] *)
Definition TerminateHeapMem (h : t) : MEMERR * t :=
  (MEMERR_NO_ERR,
   {| heapInitalized := false; memFlags := memFlags h; callback := None;
      allignment := allignment h; pageSize := pageSize h;
      numOfPages := numOfPages h; maxPages := maxPages h;
      maxPageSize := maxPageSize h; currentPage := currentPage h;
      pages := pages h |}).

(** [memFlags & f] as a condition *)
Definition has_flag (h : t) (f : Z) : bool :=
  negb (Z.land (memFlags h) f =? 0).

(** [sizeof(T) + (sizeof(T) % allignment)], the size set aside in the page
    for an object of type [T]. *)
Definition objPageSize (sizeofT allignment : Z) : Z :=
  wrap64 (sizeofT + sizeofT mod allignment).

(** [MemHeap::Allocate<T>].  [sizeofT] is [sizeof(T)], [ctor] what the
    construction [new(...) T()] does, [o_page] what [new] does should
    [AllocatePage] be called and get that far, [p_Obj] the slot of the
    caller. *)
Definition Allocate (sizeofT : Z) (ctor o_page : Outcome)
    (p_Obj : option ptr) (h : t) (w : World)
  : option (MEMERR * option ptr * t * World) :=
  if allignment h =? 0 then None
  else
    let size := objPageSize sizeofT (allignment h) in
    '(h1, w1) ← (if size <? pageSize h
                 then '(_, h', w') ← AllocatePage o_page h w; Some (h', w')
                 else Some (h, w));
    if negb (has_flag h1 MEMFLAGS_OVERRIDE_DOUBLE_ALLOC)
       && bool_decide (is_Some p_Obj)
    then Some (MEMERR_DOUBLE_ALLOC, p_Obj, h1, w1)
    else
      match ctor with
      | Returns =>
          let p := {| ptr_page := page_at h1 (wrap64 (numOfPages h1 - 1));
                      ptr_off := pageSize h1 |} in
          let o := {| obj_at := p; obj_size := sizeofT; obj_reserved := size |} in
          let w2 := set_objects (o :: objects w1) w1 in
          let h2 := set_pageSize (wrap64 (pageSize h1 + size)) h1 in
          match callback h2 with
          | Some c =>
              if negb (has_flag h2 MEMFLAGS_DISABLE_DEBUG_MSG) then
                '(error, w3) ← MemCallback.PerformCallback c MEMCALL_ALLOC sizeofT w2;
                if decide (error ≠ MEMERR_NO_ERR) then Some (error, Some p, h2, w3)
                else Some (MEMERR_NO_ERR, Some p, h2, w3)
              else Some (MEMERR_NO_ERR, Some p, h2, w2)
          | None => Some (MEMERR_NO_ERR, Some p, h2, w2)
          end
      | ThrowsBadAlloc =>
          '(error, w2) ← report_mem_err h1 sizeofT w1;
          if decide (error ≠ MEMERR_NO_ERR) then Some (error, p_Obj, h1, w2)
          else Some (MEMERR_OUT_OF_MEM, p_Obj, h1, w2)
      | ThrowsException =>
          '(error, w2) ← report_mem_err h1 sizeofT w1;
          if decide (error ≠ MEMERR_NO_ERR) then Some (error, p_Obj, h1, w2)
          else Some (MEMERR_UNKNOWN, p_Obj, h1, w2)
      end.

(** The destructor call of [delete p]: the object at [p] is no longer
    alive. *)
Definition destroy (p : ptr) (w : World) : World :=
  set_objects (filter (λ o, obj_at o ≠ p) (objects w)) w.

(** A buffer that [new] has returned and that was not handed back since. *)
Definition held (pg : Page) (w : World) : bool :=
  bool_decide ((page_id pg < next_page w)%nat)
  && bool_decide (page_id pg ∉ released w).

(** The deallocation function called by [delete p]: it takes the first byte
    of a buffer that is held and releases the buffer; on any other address
    the program does not continue. *)
Definition operator_delete (p : ptr) (w : World) : option World :=
  match ptr_page p with
  | Some pg =>
      if (ptr_off p =? 0) && held pg w
      then Some (set_released ({[page_id pg]} ∪ released w) w)
      else None
  | None => None
  end.

(** [delete p]: the destructor, then the deallocation function. *)
Definition delete_expr (p : ptr) (w : World) : option World :=
  operator_delete p (destroy p w).

(** [MemHeap::Deallocate<T>] *)
Definition Deallocate (sizeofT : Z) (p_Obj : option ptr) (h : t) (w : World)
  : option (MEMERR * option ptr * t * World) :=
  match p_Obj with
  | None =>
      '(error, w1) ← (match callback h with
                      | Some c =>
                          MemCallback.PerformCallback c MEMCALL_INVALID_MEM sizeofT w
                      | None => Some (MEMERR_NO_ERR, w)
                      end);
      if decide (error ≠ MEMERR_NO_ERR) then Some (error, None, h, w1)
      else Some (MEMERR_INVALID_MEM, None, h, w1)
  | Some p =>
      '(error, w1) ← (match callback h with
                      | Some c =>
                          if negb (has_flag h MEMFLAGS_DISABLE_DEBUG_MSG)
                          then MemCallback.PerformCallback c MEMCALL_DEALLOC sizeofT w
                          else Some (MEMERR_NO_ERR, w)
                      | None => Some (MEMERR_NO_ERR, w)
                      end);
      w2 ← delete_expr p w1;
      Some (MEMERR_NO_ERR, None, h, w2)
  end.

End MemHeap.

(** ** Sequences of calls on one arena *)

(** One call of the public interface of [MemHeap], with what the caller and
    the environment supply. *)
Inductive op :=
| Initialize (in_pageSize in_numOfPages in_allignment : Z)
    (callbackClass : option MemCallback.t) (o_ptrs o_page : Outcome)
| Terminate
| Alloc (sizeofT : Z) (ctor o_page : Outcome) (p_Obj : option ptr)
| Dealloc (sizeofT : Z) (p_Obj : option ptr).

(** What a call leaves behind: its result code, the slot of the caller when
    the call has one, the arena and the world. *)
Definition step (o : op) (h : MemHeap.t) (w : World)
  : option (MEMERR * option ptr * MemHeap.t * World) :=
  match o with
  | Initialize ps np al cb o1 o2 =>
      '(e, h', w') ← MemHeap.InitalizeHeapMem ps np al cb o1 o2 h w;
      Some (e, None, h', w')
  | Terminate =>
      let '(e, h') := MemHeap.TerminateHeapMem h in Some (e, None, h', w)
  | Alloc s c o p => MemHeap.Allocate s c o p h w
  | Dealloc s p => MemHeap.Deallocate s p h w
  end.

(** The calls of [l] one after the other; the result codes and slots are
    collected in order. *)
Fixpoint run (l : list op) (h : MemHeap.t) (w : World)
  : option (list (MEMERR * option ptr) * MemHeap.t * World) :=
  match l with
  | [] => Some ([], h, w)
  | o :: l' =>
      '(e, p, h1, w1) ← step o h w;
      '(r, h2, w2) ← run l' h1 w1;
      Some ((e, p) :: r, h2, w2)
  end.

(** States an arena can be in: a constructed object, then any calls. *)
Inductive reachable : MemHeap.t → World → Prop :=
| reach_ctor raw w : reachable (MemHeap.ctor raw) w
| reach_step o h w e p h' w' :
    reachable h w → step o h w = Some (e, p, h', w') → reachable h' w'.

(** ** Notions used to state the properties *)

(** The page an allocation writes to, [pages[numOfPages - 1]]. *)
Definition current_page (h : MemHeap.t) : option Page :=
  MemHeap.page_at h (wrap64 (MemHeap.numOfPages h - 1)).

(** Following the specification: an object of [sizeof(T) = sizeofT] fits in
    the current page when its padded size is at most the capacity of the
    page minus the bytes used ([padded_size ≤ capacity − used]). *)
Definition fits (sizeofT : Z) (h : MemHeap.t) : bool :=
  match current_page h with
  | Some pg =>
      MemHeap.objPageSize sizeofT (MemHeap.allignment h)
        <=? page_cap pg - MemHeap.pageSize h
  | None => false
  end.

(** Following the specification: [s] rounded up to the next multiple of
    [a]. *)
Definition round_up (s a : Z) : Z := (s + a - 1) / a * a.

(** The statements of [Allocate], named.

    [Allocate] is three statements in a row: the page request, the guard
    against a slot in use, and the [try] block followed by the notification.
    The first and the last are given names here so that each can be reasoned
    about once. *)

Definition page_request (size : Z) (o_page : Outcome) (h : MemHeap.t) (w : World)
  : option (MemHeap.t * World) :=
  if size <? MemHeap.pageSize h
  then '(_, h', w') ← MemHeap.AllocatePage o_page h w; Some (h', w')
  else Some (h, w).

Definition guard (p_Obj : option ptr) (h : MemHeap.t) : bool :=
  negb (MemHeap.has_flag h MEMFLAGS_OVERRIDE_DOUBLE_ALLOC)
  && bool_decide (is_Some p_Obj).

(** Where [Allocate] constructs the object. *)
Definition place_ptr (h : MemHeap.t) : ptr :=
  {| ptr_page := current_page h; ptr_off := MemHeap.pageSize h |}.

Definition construct (sizeofT size : Z) (ctor : Outcome) (p_Obj : option ptr)
    (h1 : MemHeap.t) (w1 : World)
  : option (MEMERR * option ptr * MemHeap.t * World) :=
  match ctor with
  | Returns =>
      let o := {| obj_at := place_ptr h1; obj_size := sizeofT;
                  obj_reserved := size |} in
      let w2 := set_objects (o :: objects w1) w1 in
      let h2 := MemHeap.set_pageSize (wrap64 (MemHeap.pageSize h1 + size)) h1 in
      match MemHeap.callback h2 with
      | Some c =>
          if negb (MemHeap.has_flag h2 MEMFLAGS_DISABLE_DEBUG_MSG) then
            '(error, w3) ← MemCallback.PerformCallback c MEMCALL_ALLOC sizeofT w2;
            if decide (error ≠ MEMERR_NO_ERR)
            then Some (error, Some (place_ptr h1), h2, w3)
            else Some (MEMERR_NO_ERR, Some (place_ptr h1), h2, w3)
          else Some (MEMERR_NO_ERR, Some (place_ptr h1), h2, w2)
      | None => Some (MEMERR_NO_ERR, Some (place_ptr h1), h2, w2)
      end
  | ThrowsBadAlloc =>
      '(error, w2) ← MemHeap.report_mem_err h1 sizeofT w1;
      if decide (error ≠ MEMERR_NO_ERR) then Some (error, p_Obj, h1, w2)
      else Some (MEMERR_OUT_OF_MEM, p_Obj, h1, w2)
  | ThrowsException =>
      '(error, w2) ← MemHeap.report_mem_err h1 sizeofT w1;
      if decide (error ≠ MEMERR_NO_ERR) then Some (error, p_Obj, h1, w2)
      else Some (MEMERR_UNKNOWN, p_Obj, h1, w2)
  end.

(** What a page request leaves alone. *)
Definition same_settings (h h' : MemHeap.t) : Prop :=
  MemHeap.heapInitalized h' = MemHeap.heapInitalized h
  ∧ MemHeap.memFlags h' = MemHeap.memFlags h
  ∧ MemHeap.callback h' = MemHeap.callback h
  ∧ MemHeap.allignment h' = MemHeap.allignment h
  ∧ MemHeap.pageSize h' = MemHeap.pageSize h
  ∧ MemHeap.maxPages h' = MemHeap.maxPages h
  ∧ MemHeap.maxPageSize h' = MemHeap.maxPageSize h.

(** The world once the object is constructed, and the arena once the offset
    is advanced. *)
Definition placed (sizeofT size : Z) (h1 : MemHeap.t) (w1 : World) : World :=
  set_objects ({| obj_at := place_ptr h1; obj_size := sizeofT;
                  obj_reserved := size |} :: objects w1) w1.

Definition bumped (size : Z) (h1 : MemHeap.t) : MemHeap.t :=
  MemHeap.set_pageSize (wrap64 (MemHeap.pageSize h1 + size)) h1.

(** The world once [delete] has run on the first byte [p] of the buffer
    [pg]: no object is alive at [p] and the buffer is released. *)
Definition deleted (p : ptr) (pg : Page) (w : World) : World :=
  set_released ({[ page_id pg ]} ∪ released w) (MemHeap.destroy p w).

(** A trace log that can be called: its function pointer is not null. *)
Definition trace_callable (c : MemCallback.t) : Prop :=
  ∀ tr, MemCallback.traceClass c = Some tr → is_Some (MemTrace.traceFunc tr).

(** ** Sample data *)

Definition world0 : World :=
  {| allocs := 0; deallocs := 0; memInUse := 0; files := ∅; denied := ∅;
     console := EmptyString; objects := []; next_page := 0;
     released := ∅ |}.

(** Storage for a [MemHeap] in which the page count holds zero and the
    limits hold leftovers.  [InitalizeHeapMem] reads [numOfPages], [maxPages]
    and [maxPageSize] before it assigns them: on storage where [maxPages]
    holds zero as well it fails (see [InitalizeHeapMem_reads_storage]). *)
Definition raw_storage : MemHeap.t :=
  {| MemHeap.heapInitalized := true; MemHeap.memFlags := 170;
     MemHeap.callback := None; MemHeap.allignment := 0;
     MemHeap.pageSize := 0; MemHeap.numOfPages := 0;
     MemHeap.maxPages := 16; MemHeap.maxPageSize := 4096;
     MemHeap.currentPage := None;
     MemHeap.pages := {| MemHeap.table_len := 0; MemHeap.cells := ∅ |} |}.

Definition init_64_3_8 : op := Initialize 64 3 8 None Returns Returns.

Definition fresh_arena : MemHeap.t := MemHeap.ctor raw_storage.

Definition T40 : op := Alloc 40 Returns Returns None.
Definition T8 : op := Alloc 8 Returns Returns None.
Definition T56 : op := Alloc 56 Returns Returns None.

Definition init_64_2_8 : op := Initialize 64 2 8 None Returns Returns.

Definition missing_path : string := "missing/Trace.txt".
Definition trace_path : string := "log/Trace.txt".

(** A file system where [missing_path] cannot be opened and [trace_path]
    holds one line. *)
Definition world_files : World :=
  {| allocs := 0; deallocs := 0; memInUse := 0;
     files := {[ trace_path := "old" +:+ endl ]};
     denied := {[ missing_path ]};
     console := EmptyString; objects := []; next_page := 0;
     released := ∅ |}.

Definition sink_plain : MemCallback.t :=
  (MemCallback.ctor false None (Some MemCallback.DefaultCallback) None).1.

Definition console_trace : MemTrace.t :=
  (MemTrace.ctor EmptyString false None (Some MemTrace.DefaultTrace) world0).1.1.

Definition sink_console : MemCallback.t :=
  (MemCallback.ctor false (Some console_trace)
     (Some MemCallback.DefaultCallback) None).1.

(** A sink whose callback reports an error for every event. *)
Definition sink_failing : MemCallback.t :=
  (MemCallback.ctor false None
     (Some (MemCallback.CustomCallback (λ _ _, MEMERR_CORRUPT_MEM))) None).1.

(** The first page of [fresh_arena]: it is allocated before [maxPageSize]
    is assigned. *)
Definition page0 : Page := {| page_id := 0; page_cap := 4096 |}.

(** An arena as [InitalizeHeapMem 64 3 8] leaves it, with the sink [c]
    attached and the flags [f]. *)
Definition arena (f : Z) (c : option MemCallback.t) : MemHeap.t :=
  {| MemHeap.heapInitalized := true; MemHeap.memFlags := f;
     MemHeap.callback := c; MemHeap.allignment := 8;
     MemHeap.pageSize := 0; MemHeap.numOfPages := 1;
     MemHeap.maxPages := 3; MemHeap.maxPageSize := 64;
     MemHeap.currentPage := Some page0;
     MemHeap.pages := {| MemHeap.table_len := 0;
                         MemHeap.cells := {[ 0 := page0 ]} |} |}.

Definition world1 : World := set_next_page 1 world0.

Definition obj0 : Obj :=
  {| obj_at := {| ptr_page := Some page0; ptr_off := 0 |};
     obj_size := 40; obj_reserved := 40 |}.

(** ** Further code and notions *)

(** The destructor [MemTrace::~MemTrace]: logging is switched off when
    there is a trace function, and an open file is closed. *)
Definition MemTrace_dtor (m : MemTrace.t) : MemTrace.t :=
  let m1 := match MemTrace.traceFunc m with
            | Some _ => MemTrace.set_traceLog false m
            | None => m
            end in
  if is_open (MemTrace.traceFile m1)
  then MemTrace.set_traceFile (fstream_close (MemTrace.traceFile m1)) m1
  else m1.

(** [LogMessage] for each message of a list in turn, with the results. *)
Fixpoint log_all (m : MemTrace.t) (msgs : list string) (w : World)
  : option (list MEMERR * World) :=
  match msgs with
  | [] => Some ([], w)
  | msg :: rest =>
      '(e, w1) ← MemTrace.LogMessage m msg w;
      '(es, w2) ← log_all m rest w1;
      Some (e :: es, w2)
  end.

(** The text of the messages, one per line. *)
Fixpoint lines (msgs : list string) : string :=
  match msgs with
  | [] => EmptyString
  | msg :: rest => msg +:+ endl +:+ lines rest
  end.

(** Two worlds that differ at most in the contents of files. *)
Definition same_but_files (w w' : World) : Prop :=
  allocs w' = allocs w ∧ deallocs w' = deallocs w ∧ memInUse w' = memInUse w
  ∧ denied w' = denied w ∧ console w' = console w
  ∧ objects w' = objects w ∧ next_page w' = next_page w
  ∧ released w' = released w.

(** *** The unit tests of the trace log ([memstaxtest.cpp])

    Each test constructs a local [MemTrace], uses it and checks results with
    [assert].  A test returns, or stops in one of its assertions (numbered
    in the order they stand in its body), or runs into undefined behaviour.
    The destructor of the local log runs when the test returns; it changes
    the log, which is then gone, and nothing in the world.  A local
    [MEMERR error;] starts with whatever the stack held, [error0]. *)

Inductive TestRun :=
| Passed (w : World)
| AssertFailed (n : nat) (w : World)
| Undefined.

Definition Trace_txt : string := "./log/Trace.txt".
Definition Trace2_txt : string := "./log/Trace2.txt".

(** [UnitTest_MemTrace_Console] *)
Definition UnitTest_MemTrace_Console (w : World) : TestRun :=
  let '(trace, _, w1) :=
    MemTrace.ctor EmptyString false None (Some MemTrace.DefaultTrace) w in
  match MemTrace.LogMessage trace "Test Default Trace Log" w1 with
  | None => Undefined
  | Some (error, w2) =>
      if decide (error = MEMERR_NO_ERR) then Passed w2 else AssertFailed 1 w2
  end.

(** [UnitTest_MemTrace_File] *)
Definition UnitTest_MemTrace_File (error0 : MEMERR) (w : World) : TestRun :=
  let '(trace, error, w1) :=
    MemTrace.ctor Trace_txt true (Some error0) (Some MemTrace.DefaultTrace) w in
  if decide (error = Some MEMERR_NO_ERR) then
    let '(_, trace1, w2) := MemTrace.ClearFile trace w1 in
    match MemTrace.LogMessage trace1 "Test Default Trace Log" w2 with
    | None => Undefined
    | Some (error, w3) =>
        if decide (error = MEMERR_NO_ERR) then Passed w3 else AssertFailed 2 w3
    end
  else AssertFailed 1 w1.

(** [UnitTest_MemTrace_FileNoClear] *)
Definition UnitTest_MemTrace_FileNoClear (error0 : MEMERR) (w : World) : TestRun :=
  let '(trace, error, w1) :=
    MemTrace.ctor Trace_txt false (Some error0) (Some MemTrace.DefaultTrace) w in
  if decide (error = Some MEMERR_NO_ERR) then
    match MemTrace.LogMessage trace "Test Default Trace Log (2)" w1 with
    | None => Undefined
    | Some (error, w2) =>
        if decide (error = MEMERR_NO_ERR) then Passed w2 else AssertFailed 2 w2
    end
  else AssertFailed 1 w1.

(** [UnitTest_MemTrace_FileDifferent] *)
Definition UnitTest_MemTrace_FileDifferent (error0 : MEMERR) (w : World) : TestRun :=
  let '(trace, error, w1) :=
    MemTrace.ctor Trace2_txt true (Some error0) (Some MemTrace.DefaultTrace) w in
  if decide (error = Some MEMERR_NO_ERR) then
    match MemTrace.LogMessage trace "Test Default Trace Log" w1 with
    | None => Undefined
    | Some (error, w2) =>
        if decide (error = MEMERR_NO_ERR) then Passed w2 else AssertFailed 2 w2
    end
  else AssertFailed 1 w1.

(** [UnitTest_MemTrace_CheckGetFile]; the third assertion dereferences the
    pointer that [GetFile] returned. *)
Definition UnitTest_MemTrace_CheckGetFile (error0 : MEMERR) (w : World) : TestRun :=
  let '(trace, error, w1) :=
    MemTrace.ctor Trace_txt false (Some error0) (Some MemTrace.DefaultTrace) w in
  if decide (error = Some MEMERR_NO_ERR) then
    let '(file, error) := MemTrace.GetFile trace error in
    if decide (error = Some MEMERR_NO_ERR) then
      match file with
      | None => Undefined
      | Some f =>
          if is_open f then
            let w2 := fstream_write_line "Testing Get File Direct Write" f w1 in
            match MemTrace.LogMessage trace "Testing Get File Log Write" w2 with
            | None => Undefined
            | Some (error, w3) =>
                if decide (error = MEMERR_NO_ERR) then Passed w3
                else AssertFailed 4 w3
            end
          else AssertFailed 3 w1
      end
    else AssertFailed 2 w1
  else AssertFailed 1 w1.

(** A file system without the directory of the test logs. *)
Definition world_no_log : World :=
  {| allocs := 0; deallocs := 0; memInUse := 0; files := ∅;
     denied := {[ Trace_txt; Trace2_txt ]};
     console := EmptyString; objects := []; next_page := 0;
     released := ∅ |}.

(** A file system in which the log of the tests holds one line from an
    earlier run. *)
Definition world_log : World :=
  set_files {[ Trace_txt := "old" +:+ endl ]} world0.

(** [PerformCallback] for each event of a list in turn. *)
Fixpoint dispatch_all (c : MemCallback.t) (events : list (MEMCALL * Z))
    (w : World) : option World :=
  match events with
  | [] => Some w
  | (msg, n) :: rest =>
      '(_, w1) ← MemCallback.PerformCallback c msg n w;
      dispatch_all c rest w1
  end.

(** How many events of a list are of kind [k], and the sizes they carry
    added up. *)
Fixpoint count_kind (k : MEMCALL) (events : list (MEMCALL * Z)) : Z :=
  match events with
  | [] => 0
  | (msg, _) :: rest =>
      (if decide (msg = k) then 1 else 0) + count_kind k rest
  end.

Fixpoint total_size (k : MEMCALL) (events : list (MEMCALL * Z)) : Z :=
  match events with
  | [] => 0
  | (msg, n) :: rest =>
      (if decide (msg = k) then n else 0) + total_size k rest
  end.

(** The counters hold values of their types. *)
Definition counters_in_range (w : World) : Prop :=
  0 ≤ allocs w < 2 ^ 32 ∧ 0 ≤ deallocs w < 2 ^ 32 ∧ 0 ≤ memInUse w < 2 ^ 64.

(** What one event does to the counters. *)
Definition count_event (msg : MEMCALL) (n : Z) (w : World) : World :=
  match msg with
  | MEMCALL_ALLOC =>
      set_counters (wrap32 (allocs w + 1)) (deallocs w)
        (wrap64 (memInUse w + n)) w
  | MEMCALL_DEALLOC =>
      set_counters (allocs w) (wrap32 (deallocs w + 1))
        (wrap64 (memInUse w - n)) w
  | _ => w
  end.

(** The words of the message for each kind of event. *)
Definition event_text (msg : MEMCALL) : string :=
  match msg with
  | MEMCALL_ALLOC => "Allocating Memory of size: "
  | MEMCALL_DEALLOC => "Deallocating Memory of size: "
  | MEMCALL_MEM_ERR => "Error Allocating Memory of size: "
  | MEMCALL_INVALID_MEM => "Error Accessing Memory of size: "
  end.

(** A sink with the default callback and a trace log that rejects every
    message. *)
Definition sink_muted : MemCallback.t :=
  (MemCallback.ctor false
     (Some (MemTrace.ctor missing_path false None (Some MemTrace.DefaultTrace)
              world_files).1.1)
     (Some MemCallback.DefaultCallback) None).1.

(** Objects stacked below [top]: each one ends where the one placed after
    it begins, or before, and the last placed ends at [top] or before. *)
Fixpoint stacked (top : Z) (l : list Obj) : Prop :=
  match l with
  | [] => True
  | o :: l' =>
      0 ≤ obj_reserved o
      ∧ ptr_off (obj_at o) + obj_reserved o ≤ top
      ∧ stacked (ptr_off (obj_at o)) l'
  end.

Definition is_Initialize (o : op) : bool :=
  match o with Initialize _ _ _ _ _ _ => true | _ => false end.

(** The bytes that the allocations of a list of calls set aside under the
    alignment [al]. *)
Fixpoint reserve_total (al : Z) (ops : list op) : Z :=
  match ops with
  | [] => 0
  | Alloc s _ _ _ :: rest => MemHeap.objPageSize s al + reserve_total al rest
  | _ :: rest => reserve_total al rest
  end.

(** Two worlds that differ at most in the objects alive, in the supply of
    pages and in the buffers released. *)
Definition same_but_memory (w w' : World) : Prop :=
  allocs w' = allocs w ∧ deallocs w' = deallocs w ∧ memInUse w' = memInUse w
  ∧ files w' = files w ∧ denied w' = denied w ∧ console w' = console w.

(** * Properties *)

(** ** Padded size *)

Lemma wrap64_small (x : Z) : 0 ≤ x < 2 ^ 64 → wrap64 x = x.
Proof. intros H. unfold wrap64. apply Z.mod_small. exact H. Qed.

(** The code adds the remainder to the size instead of what is missing to
    the next multiple. *)
Lemma objPageSize_split (s a : Z) :
  0 < a → 0 ≤ s → s + s mod a < 2 ^ 64 →
  MemHeap.objPageSize s a = a * (s / a) + 2 * (s mod a).
Proof.
  intros Ha Hs Hlt. unfold MemHeap.objPageSize.
  pose proof (Z.mod_pos_bound s a Ha) as Hr.
  rewrite wrap64_small by lia.
  pose proof (Z.div_mod s a) as Hd. lia.
Qed.

Lemma round_up_split (s a : Z) :
  0 < a → 0 ≤ s →
  round_up s a = if decide (s mod a = 0) then a * (s / a) else a * (s / a) + a.
Proof.
  intros Ha Hs. unfold round_up.
  pose proof (Z.mod_pos_bound s a Ha) as Hr.
  pose proof (Z.div_mod s a ltac:(lia)) as Hd.
  set (q := s / a) in *. set (r := s mod a) in *.
  case_decide as Hz.
  - assert ((s + a - 1) / a = q) as ->; [|lia].
    symmetry. apply (Z.div_unique _ _ q (a - 1)); lia.
  - assert ((s + a - 1) / a = q + 1) as ->; [|lia].
    symmetry. apply (Z.div_unique _ _ (q + 1) (r - 1)); lia.
Qed.

(** X26: the padded size the code computes equals the size rounded up to
    the next multiple of the alignment exactly for the sizes that are a
    multiple of the alignment or half an alignment past one. *)
Lemma objPageSize_round_up_iff (s a : Z) :
  0 < a → 0 ≤ s → s + s mod a < 2 ^ 64 →
  MemHeap.objPageSize s a = round_up s a ↔ s mod a = 0 ∨ 2 * (s mod a) = a.
Proof.
  intros Ha Hs Hlt.
  rewrite objPageSize_split, round_up_split by assumption.
  pose proof (Z.mod_pos_bound s a Ha) as Hr.
  case_decide; lia.
Qed.

(** ** What [AllocatePage] and [Allocate] do to the page count *)

(** A page request on an arena that holds [maxPages] pages fails with
    [MEMERR_OUT_OF_MEM] and changes nothing. *)
Lemma AllocatePage_exhausted (o : Outcome) (h : MemHeap.t) (w : World) :
  0 ≤ MemHeap.maxPages h < 2 ^ 64 - 1 →
  MemHeap.numOfPages h = MemHeap.maxPages h →
  MemHeap.AllocatePage o h w = Some (MEMERR_OUT_OF_MEM, h, w).
Proof.
  intros Hr He. unfold MemHeap.AllocatePage. cbn [MemHeap.numOfPages MemHeap.maxPages MemHeap.set_numOfPages].
  rewrite He, (wrap64_small (MemHeap.maxPages h + 1)) by lia.
  destruct (Z.gtb_spec (MemHeap.maxPages h + 1) (MemHeap.maxPages h)) as [_|]; [|lia].
  replace (MemHeap.maxPages h + 1 - 1) with (MemHeap.maxPages h) by lia.
  rewrite wrap64_small by lia.
  do 3 f_equal. rewrite <- He. destruct h; reflexivity.
Qed.

(** Below the budget, and when [new] returns, a page of [maxPageSize] bytes
    is stored in the next cell of the table. *)
Lemma AllocatePage_appends (h : MemHeap.t) (w : World) :
  0 ≤ MemHeap.numOfPages h < MemHeap.maxPages h → MemHeap.maxPages h < 2 ^ 64 →
  ∃ h', MemHeap.AllocatePage Returns h w
          = Some (MEMERR_NO_ERR, h', set_next_page (S (next_page w)) w)
        ∧ MemHeap.numOfPages h' = MemHeap.numOfPages h + 1
        ∧ current_page h'
          = Some {| page_id := next_page w; page_cap := MemHeap.maxPageSize h |}
        ∧ MemHeap.pageSize h' = MemHeap.pageSize h.
Proof.
  intros Hr Hm. unfold MemHeap.AllocatePage.
  cbn [MemHeap.numOfPages MemHeap.maxPages MemHeap.set_numOfPages].
  rewrite (wrap64_small (MemHeap.numOfPages h + 1)) by lia.
  destruct (Z.gtb_spec (MemHeap.numOfPages h + 1) (MemHeap.maxPages h)); [lia|].
  eexists. split; [reflexivity|].
  unfold current_page, MemHeap.page_at. cbn.
  split; [reflexivity|]. split; [|reflexivity].
  apply lookup_insert_eq.
Qed.

Lemma Allocate_eq (sizeofT : Z) (c o : Outcome) (p : option ptr)
    (h : MemHeap.t) (w : World) :
  MemHeap.Allocate sizeofT c o p h w
  = if MemHeap.allignment h =? 0 then None
    else
      let size := MemHeap.objPageSize sizeofT (MemHeap.allignment h) in
      '(h1, w1) ← page_request size o h w;
      if guard p h1 then Some (MEMERR_DOUBLE_ALLOC, p, h1, w1)
      else construct sizeofT size c p h1 w1.
Proof. reflexivity. Qed.

(** *** The world outside the counters and the logs *)

Lemma LogMessage_objects (m : MemTrace.t) msg w e w' :
  MemTrace.LogMessage m msg w = Some (e, w') →
  objects w' = objects w ∧ next_page w' = next_page w
  ∧ (allocs w', deallocs w', memInUse w') = (allocs w, deallocs w, memInUse w).
Proof.
  unfold MemTrace.LogMessage, MemTrace.call_traceFunc, MemTrace.PrintMessage,
    fstream_write_line.
  intros H.
  repeat (match type of H with
          | context [if ?b then _ else _] => destruct b
          | context [match ?x with _ => _ end] => destruct x
          end; try discriminate);
    injection H as <- <-; done.
Qed.

Lemma PerformCallback_objects (c : MemCallback.t) msg n w e w' :
  MemCallback.PerformCallback c msg n w = Some (e, w') →
  objects w' = objects w ∧ next_page w' = next_page w.
Proof.
  unfold MemCallback.PerformCallback, MemCallback.call_callback,
    MemCallback.CallbackFunc.
  destruct (MemCallback.callbackInit c); [|by intros [= <- <-]].
  destruct (MemCallback.callback c) as [[|g]|]; [|by intros [= <- <-]|done].
  destruct (MemCallback.traceClass c) as [tr|].
  - destruct msg; cbn;
      (destruct (MemTrace.LogMessage tr _ _) as [[e1 w1]|] eqn:HL; [|done]);
      cbn; intros [= <- <-];
      apply LogMessage_objects in HL as (-> & -> & _); done.
  - destruct msg; intros [= <- <-]; done.
Qed.

Lemma report_mem_err_objects (h : MemHeap.t) n w e w' :
  MemHeap.report_mem_err h n w = Some (e, w') →
  objects w' = objects w ∧ next_page w' = next_page w.
Proof.
  unfold MemHeap.report_mem_err. destruct (MemHeap.callback h).
  - apply PerformCallback_objects.
  - by intros [= <- <-].
Qed.



(** *** [delete] *)


(** On the first byte of a buffer that is held, [delete] goes through. *)
Lemma delete_expr_held (p : ptr) (pg : Page) (w : World) :
  ptr_page p = Some pg → ptr_off p = 0 → MemHeap.held pg w = true →
  MemHeap.delete_expr p w = Some (deleted p pg w).
Proof.
  intros Hpg Hoff Hh. unfold MemHeap.delete_expr, MemHeap.operator_delete.
  rewrite Hpg, Hoff.
  change (MemHeap.held pg (MemHeap.destroy p w)) with (MemHeap.held pg w).
  by rewrite Hh.
Qed.

(** And nowhere else. *)
Lemma delete_expr_Some (p : ptr) (w w' : World) :
  MemHeap.delete_expr p w = Some w' →
  ∃ pg, ptr_page p = Some pg ∧ ptr_off p = 0 ∧ MemHeap.held pg w = true
        ∧ w' = deleted p pg w.
Proof.
  unfold MemHeap.delete_expr, MemHeap.operator_delete.
  destruct (ptr_page p) as [pg|]; [|done].
  destruct (Z.eqb_spec (ptr_off p) 0) as [Hoff|]; [|done].
  change (MemHeap.held pg (MemHeap.destroy p w)) with (MemHeap.held pg w).
  destruct (MemHeap.held pg w) eqn:Hh; [|done].
  intros [= <-]. by exists pg.
Qed.

(** *** The page request *)

Lemma same_settings_refl h : same_settings h h.
Proof. by repeat split. Qed.

Lemma AllocatePage_frame (o : Outcome) (h : MemHeap.t) (w : World) e h' w' :
  MemHeap.AllocatePage o h w = Some (e, h', w') →
  same_settings h h' ∧ objects w' = objects w.
Proof.
  unfold MemHeap.AllocatePage.
  destruct (_ >? _); [by intros [= <- <- <-]|].
  destruct o.
  - by intros [= <- <- <-].
  - destruct (MemHeap.report_mem_err _ _ _) as [[e1 w1]|] eqn:Hr; [|done].
    apply report_mem_err_objects in Hr as [Hr _].
    cbn. case_decide; intros [= <- <- <-]; by rewrite Hr.
  - destruct (MemHeap.report_mem_err _ _ _) as [[e1 w1]|] eqn:Hr; [|done].
    apply report_mem_err_objects in Hr as [Hr _].
    cbn. case_decide; intros [= <- <- <-]; by rewrite Hr.
Qed.

Lemma page_request_frame (size : Z) (o : Outcome) (h : MemHeap.t) (w : World) h' w' :
  page_request size o h w = Some (h', w') →
  same_settings h h' ∧ objects w' = objects w.
Proof.
  unfold page_request. destruct (_ <? _).
  - destruct (MemHeap.AllocatePage o h w) as [[[e1 h1] w1]|] eqn:HA; [|done].
    cbn. intros [= <- <-]. eapply AllocatePage_frame, HA.
  - intros [= <- <-]. split; [apply same_settings_refl|done].
Qed.



(** No page is requested unless the padded size is smaller than the bytes
    used so far. *)
Lemma page_request_none (size : Z) (o : Outcome) (h : MemHeap.t) (w : World) :
  MemHeap.pageSize h ≤ size → page_request size o h w = Some (h, w).
Proof.
  intros Hle. unfold page_request.
  destruct (Z.ltb_spec size (MemHeap.pageSize h)); [lia|done].
Qed.

(** When [new] returns, the request is defined, and it adds a page exactly
    when the padded size is smaller than the bytes used and the budget
    allows; the capacity of the page plays no part. *)
Lemma page_request_count (size : Z) (h : MemHeap.t) (w : World) :
  0 ≤ MemHeap.numOfPages h → MemHeap.numOfPages h + 1 < 2 ^ 64 →
  ∃ h' w', page_request size Returns h w = Some (h', w')
    ∧ MemHeap.numOfPages h'
      = if (size <? MemHeap.pageSize h)
           && (MemHeap.numOfPages h <? MemHeap.maxPages h)
        then MemHeap.numOfPages h + 1 else MemHeap.numOfPages h.
Proof.
  intros H0 Hlt. unfold page_request, MemHeap.AllocatePage.
  destruct (size <? MemHeap.pageSize h); [|by eexists _, _].
  cbn [MemHeap.numOfPages MemHeap.maxPages MemHeap.set_numOfPages andb].
  rewrite (wrap64_small (MemHeap.numOfPages h + 1)) by lia.
  replace (MemHeap.numOfPages h + 1 - 1) with (MemHeap.numOfPages h) by lia.
  rewrite (wrap64_small (MemHeap.numOfPages h)) by lia.
  destruct (Z.gtb_spec (MemHeap.numOfPages h + 1) (MemHeap.maxPages h));
    destruct (Z.ltb_spec (MemHeap.numOfPages h) (MemHeap.maxPages h)); try lia;
    by eexists _, _.
Qed.

(** *** The construction *)

Lemma construct_frame sizeofT size c p h1 w1 e p' h' w' :
  construct sizeofT size c p h1 w1 = Some (e, p', h', w') →
  MemHeap.numOfPages h' = MemHeap.numOfPages h1
  ∧ MemHeap.pages h' = MemHeap.pages h1.
Proof.
  unfold construct. destruct c; cbn zeta.
  - destruct (MemHeap.callback _); [destruct (negb _)|].
    + destruct (MemCallback.PerformCallback _ _ _ _) as [[??]|]; [|done].
      cbn. case_decide; by intros [= <- <- <- <-].
    + by intros [= <- <- <- <-].
    + by intros [= <- <- <- <-].
  - destruct (MemHeap.report_mem_err _ _ _) as [[??]|]; [|done].
    cbn. case_decide; by intros [= <- <- <- <-].
  - destruct (MemHeap.report_mem_err _ _ _) as [[??]|]; [|done].
    cbn. case_decide; by intros [= <- <- <- <-].
Qed.

(** X27: the page count after [Allocate], when [new] returns: whatever the
    call returns, the count has grown by one exactly when the padded size
    is smaller than the bytes used and the count was below [maxPages], and
    is unchanged otherwise. *)
Lemma Allocate_page_count (sizeofT : Z) (c : Outcome) (p : option ptr)
    (h : MemHeap.t) (w : World) e p' h' w' :
  0 ≤ MemHeap.numOfPages h → MemHeap.numOfPages h + 1 < 2 ^ 64 →
  MemHeap.Allocate sizeofT c Returns p h w = Some (e, p', h', w') →
  MemHeap.numOfPages h'
  = if (MemHeap.objPageSize sizeofT (MemHeap.allignment h) <? MemHeap.pageSize h)
       && (MemHeap.numOfPages h <? MemHeap.maxPages h)
    then MemHeap.numOfPages h + 1 else MemHeap.numOfPages h.
Proof.
  intros H0 Hlt. rewrite Allocate_eq.
  destruct (MemHeap.allignment h =? 0); [done|]. cbn zeta.
  destruct (page_request_count
              (MemHeap.objPageSize sizeofT (MemHeap.allignment h)) h w H0 Hlt)
    as (h1 & w1 & -> & <-).
  cbn. destruct (guard p h1); [by intros [= <- <- <- <-]|].
  intros Hc. by apply construct_frame in Hc as [-> _].
Qed.

(** With no sink attached the result of [Allocate] is decided by the guard
    and by the construction alone: the page budget and the initialised flag
    never produce a code. *)
Lemma Allocate_codes (sizeofT : Z) (c o : Outcome) (p : option ptr)
    (h : MemHeap.t) (w : World) e p' h' w' :
  MemHeap.callback h = None →
  MemHeap.Allocate sizeofT c o p h w = Some (e, p', h', w') →
  e = MEMERR_DOUBLE_ALLOC
  ∨ e = match c with
        | Returns => MEMERR_NO_ERR
        | ThrowsBadAlloc => MEMERR_OUT_OF_MEM
        | ThrowsException => MEMERR_UNKNOWN
        end.
Proof.
  intros Hcb. rewrite Allocate_eq.
  destruct (MemHeap.allignment h =? 0); [done|]. cbn zeta.
  destruct (page_request _ o h w) as [[h1 w1]|] eqn:Hp; [|done].
  apply page_request_frame in Hp as [(_ & _ & Hcb1 & _) _].
  rewrite Hcb in Hcb1.
  cbn. destruct (guard p h1); [intros [= <- <- <- <-]; by left|].
  unfold construct, MemHeap.report_mem_err. cbn. rewrite Hcb1.
  destruct c; cbn; intros [= <- <- <- <-]; by right.
Qed.

(** Likewise [Deallocate], when it returns: a null handle is the only
    failure. *)
Lemma Deallocate_codes (sizeofT : Z) (p : option ptr) (h : MemHeap.t)
    (w : World) e p' h' w' :
  MemHeap.callback h = None →
  MemHeap.Deallocate sizeofT p h w = Some (e, p', h', w') →
  e = match p with Some _ => MEMERR_NO_ERR | None => MEMERR_INVALID_MEM end.
Proof.
  intros Hcb. unfold MemHeap.Deallocate. rewrite Hcb.
  destruct p as [p|]; cbn; [destruct (MemHeap.delete_expr p w); cbn|];
    by intros [= <- <- <- <-].
Qed.

(** A constructed arena and a terminated arena have no sink, so on neither
    does [Allocate] or [Deallocate] ever return [MEMERR_UNINITALIZED]. *)
Lemma no_sink_after_ctor_or_Terminate (raw h : MemHeap.t) :
  MemHeap.callback (MemHeap.ctor raw) = None
  ∧ MemHeap.heapInitalized (MemHeap.ctor raw) = false
  ∧ MemHeap.callback (MemHeap.TerminateHeapMem h).2 = None
  ∧ MemHeap.heapInitalized (MemHeap.TerminateHeapMem h).2 = false.
Proof. done. Qed.

Lemma never_MEMERR_UNINITALIZED (sizeofT : Z) (c o : Outcome) (p : option ptr)
    (h : MemHeap.t) (w : World) e p' h' w' :
  MemHeap.callback h = None →
  MemHeap.Allocate sizeofT c o p h w = Some (e, p', h', w')
  ∨ MemHeap.Deallocate sizeofT p h w = Some (e, p', h', w') →
  e ≠ MEMERR_UNINITALIZED.
Proof.
  intros Hcb [HA|HD].
  - apply (Allocate_codes _ _ _ _ _ _ _ _ _ _ Hcb) in HA as [->| ->];
      [done|by destruct c].
  - apply (Deallocate_codes _ _ _ _ _ _ _ _ Hcb) in HD as ->. by destruct p.
Qed.

(** The page budget that [InitalizeHeapMem] checks is the one the storage
    held, not the one it is given: when the storage holds as many pages as
    its limit, initialisation fails, whatever the arguments. *)
Lemma InitalizeHeapMem_reads_storage (ps np al : Z) (cb : option MemCallback.t)
    (o : Outcome) (raw : MemHeap.t) (w : World) :
  0 ≤ MemHeap.maxPages raw < 2 ^ 64 - 1 →
  MemHeap.numOfPages raw = MemHeap.maxPages raw →
  ∃ h, MemHeap.InitalizeHeapMem ps np al cb Returns o (MemHeap.ctor raw) w
       = Some (MEMERR_OUT_OF_MEM, h, w)
       ∧ MemHeap.heapInitalized h = false.
Proof.
  intros Hr He. unfold MemHeap.InitalizeHeapMem, MemHeap.AllocatePagePtrs.
  cbn [mbind option_bind]. rewrite decide_False by (intros H; by apply H).
  rewrite AllocatePage_exhausted by done.
  cbn [mbind option_bind]. rewrite decide_True by done.
  eexists. split; reflexivity.
Qed.

(** ** Runs and reachable states *)

(** What the [try] block and the notification do: either nothing is
    constructed, or the object is constructed at the offset and the offset
    moves past the bytes set aside. *)
Lemma construct_effect sizeofT size c p h1 w1 e p' h' w' :
  construct sizeofT size c p h1 w1 = Some (e, p', h', w') →
  MemHeap.memFlags h' = MemHeap.memFlags h1
  ∧ MemHeap.allignment h' = MemHeap.allignment h1
  ∧ ((c ≠ Returns ∧ p' = p ∧ MemHeap.pageSize h' = MemHeap.pageSize h1
      ∧ objects w' = objects w1)
     ∨ (c = Returns ∧ p' = Some (place_ptr h1)
        ∧ MemHeap.pageSize h' = wrap64 (MemHeap.pageSize h1 + size)
        ∧ objects w'
          = {| obj_at := place_ptr h1; obj_size := sizeofT;
               obj_reserved := size |} :: objects w1)).
Proof.
  unfold construct. destruct c; cbn zeta.
  - destruct (MemHeap.callback _); [destruct (negb _)|].
    + destruct (MemCallback.PerformCallback _ _ _ _) as [[e1 w3]|] eqn:Hp; [|done].
      apply PerformCallback_objects in Hp as [Hp _].
      cbn. case_decide; intros [= <- <- <- <-]; rewrite Hp;
        (split; [done|]); (split; [done|]); by right.
    + intros [= <- <- <- <-]. split; [done|]. split; [done|]. by right.
    + intros [= <- <- <- <-]. split; [done|]. split; [done|]. by right.
  - destruct (MemHeap.report_mem_err _ _ _) as [[e1 w2]|] eqn:Hr; [|done].
    apply report_mem_err_objects in Hr as [Hr _].
    cbn. case_decide; intros [= <- <- <- <-];
      (split; [done|]); (split; [done|]); by left.
  - destruct (MemHeap.report_mem_err _ _ _) as [[e1 w2]|] eqn:Hr; [|done].
    apply report_mem_err_objects in Hr as [Hr _].
    cbn. case_decide; intros [= <- <- <- <-];
      (split; [done|]); (split; [done|]); by left.
Qed.

Lemma step_memFlags (o : op) (h : MemHeap.t) (w : World) e p h' w' :
  step o h w = Some (e, p, h', w') → MemHeap.memFlags h' = MemHeap.memFlags h.
Proof.
  destruct o as [ps np al cb o1 o2| |s c o2 slot|s slot]; cbn [step].
  - unfold MemHeap.InitalizeHeapMem.
    destruct (MemHeap.AllocatePagePtrs o1 h w) as [[[e1 h1] w1]|] eqn:H1; [|done].
    assert (MemHeap.memFlags h1 = MemHeap.memFlags h) as Hf1.
    { unfold MemHeap.AllocatePagePtrs in H1. destruct o1.
      - by injection H1 as <- <- <-.
      - destruct (MemHeap.report_mem_err _ _ _) as [[??]|]; [|done].
        cbn in H1. by case_decide; injection H1 as <- <- <-.
      - destruct (MemHeap.report_mem_err _ _ _) as [[??]|]; [|done].
        cbn in H1. by case_decide; injection H1 as <- <- <-. }
    cbn [mbind option_bind]. case_decide; [by intros [= <- <- <- <-]|].
    destruct (MemHeap.AllocatePage o2 h1 w1) as [[[e2 h2] w2]|] eqn:H2; [|done].
    apply AllocatePage_frame in H2 as [(_ & Hf2 & _) _].
    cbn [mbind option_bind]. case_decide; intros [= <- <- <- <-]; cbn; congruence.
  - by intros [= <- <- <- <-].
  - rewrite Allocate_eq. destruct (_ =? 0); [done|]. cbn zeta.
    destruct (page_request _ o2 h w) as [[h1 w1]|] eqn:Hp; [|done].
    apply page_request_frame in Hp as [(_ & Hf & _) _].
    cbn. destruct (guard slot h1); [by intros [= <- <- <- <-]|].
    intros Hc. apply construct_effect in Hc as (Hf' & _). congruence.
  - unfold MemHeap.Deallocate.
    destruct slot; destruct (MemHeap.callback h) as [cc|];
      try destruct (negb _);
      try (destruct (MemCallback.PerformCallback _ _ _ _) as [[??]|]; [|done]);
      cbn [mbind option_bind];
      try (destruct (MemHeap.delete_expr _ _); [|done]);
      cbn [mbind option_bind]; try case_decide; by intros [= <- <- <- <-].
Qed.


Lemma run_reachable_from (l : list op) : ∀ h w r h' w',
  reachable h w → run l h w = Some (r, h', w') → reachable h' w'.
Proof.
  induction l as [|o l IH]; intros h w r h' w' Hr; cbn.
  - by intros [= <- <- <-].
  - destruct (step o h w) as [[[[e p] h1] w1]|] eqn:Hs; [|done]. cbn.
    destruct (run l h1 w1) as [[[r2 h2] w2]|] eqn:Hrun; [|done]. cbn.
    intros [= <- <- <-]. eapply IH; [|exact Hrun].
    eapply reach_step; [exact Hr|exact Hs].
Qed.

Lemma run_reachable (l : list op) raw w r h' w' :
  run l (MemHeap.ctor raw) w = Some (r, h', w') → reachable h' w'.
Proof. apply run_reachable_from, reach_ctor. Qed.

(** ** The claims about the arena *)

(** C1 (new page exactly when the padded size exceeds the remaining
    capacity and the page count is below [maxPages]; none when the object
    fits).  The code compares the padded size with the bytes used, not with
    what remains.  On an arena initialised with pages of 64 bytes, at most 3
    pages and alignment 8, after one object of 40 bytes:
    an object of 8 bytes fits in the current page, and a page is appended
    all the same; then, with 48 bytes used of the 64 of the second page and 2
    pages of 3, an object of 56 bytes does not fit, and no page is
    appended. *)
Theorem Allocate_page_request_ignores_capacity :
  ∃ r1 h1 w1 p2 h2 w2 p3 h3 w3,
    run [init_64_3_8; T40] fresh_arena world0 = Some (r1, h1, w1)
    ∧ fits 8 h1 = true
    ∧ MemHeap.objPageSize 8 (MemHeap.allignment h1)
      ≤ MemHeap.maxPageSize h1 - MemHeap.pageSize h1
    ∧ MemHeap.numOfPages h1 < MemHeap.maxPages h1
    ∧ MemHeap.Allocate 8 Returns Returns None h1 w1
      = Some (MEMERR_NO_ERR, p2, h2, w2)
    ∧ MemHeap.numOfPages h2 = MemHeap.numOfPages h1 + 1
    ∧ current_page h2 = Some {| page_id := 1; page_cap := 64 |}
    ∧ MemHeap.pageSize h2 = 48
    ∧ fits 56 h2 = false
    ∧ MemHeap.numOfPages h2 < MemHeap.maxPages h2
    ∧ MemHeap.Allocate 56 Returns Returns None h2 w2
      = Some (MEMERR_NO_ERR, p3, h3, w3)
    ∧ MemHeap.numOfPages h3 = MemHeap.numOfPages h2
    ∧ MemHeap.pages h3 = MemHeap.pages h2.
Proof.
  do 9 eexists.
  split; [vm_compute; reflexivity|].
  split; [reflexivity|].
  split; [vm_compute; discriminate|].
  split; [reflexivity|].
  split; [vm_compute; reflexivity|].
  repeat split; vm_compute; reflexivity.
Qed.

(** C2 (with [maxPages] pages held and an object that does not fit,
    [Allocate] fails with OutOfMemory and places nothing).  [Allocate] drops
    the result of [AllocatePage].  On an arena initialised with pages of 64
    bytes, at most 2 pages and alignment 8, after three objects of 40 bytes:
    the arena holds 2 pages of 2, a fourth object of 40 bytes does not fit,
    the page request by itself does fail with [MEMERR_OUT_OF_MEM], and yet
    [Allocate] returns [MEMERR_NO_ERR] with the object constructed at offset
    120 of the second page. *)
Theorem Allocate_past_page_budget_succeeds :
  ∃ r3 h3 w3 h4 w4,
    run [init_64_2_8; T40; T40; T40] fresh_arena world0 = Some (r3, h3, w3)
    ∧ MemHeap.numOfPages h3 = MemHeap.maxPages h3
    ∧ fits 40 h3 = false
    ∧ MemHeap.AllocatePage Returns h3 w3 = Some (MEMERR_OUT_OF_MEM, h3, w3)
    ∧ MemHeap.Allocate 40 Returns Returns None h3 w3
      = Some (MEMERR_NO_ERR,
              Some {| ptr_page := Some {| page_id := 1; page_cap := 64 |};
                      ptr_off := 120 |}, h4, w4)
    ∧ objects w4
      = {| obj_at := {| ptr_page := Some {| page_id := 1; page_cap := 64 |};
                        ptr_off := 120 |};
           obj_size := 40; obj_reserved := 40 |} :: objects w3
    ∧ MemHeap.pageSize h4 = 160.
Proof.
  do 5 eexists.
  split; [vm_compute; reflexivity|].
  repeat split; vm_compute; reflexivity.
Qed.

(** C3 ([Allocate] and [Deallocate] on an arena that is not initialised
    fail with Uninitialized and leave it alone).  Neither function reads
    [heapInitalized].  On an arena that was initialised and then terminated:
    [Allocate] returns [MEMERR_NO_ERR], constructs the object and advances
    the offset; [Deallocate] of that object returns [MEMERR_NO_ERR] and
    destroys it; [Deallocate] of a null handle returns
    [MEMERR_INVALID_MEM]. *)
Theorem Allocate_Deallocate_on_terminated_arena :
  ∃ r h w p h1 w1 w2,
    run [init_64_3_8; Terminate] fresh_arena world0 = Some (r, h, w)
    ∧ MemHeap.heapInitalized h = false
    ∧ MemHeap.Allocate 40 Returns Returns None h w
      = Some (MEMERR_NO_ERR, Some p, h1, w1)
    ∧ MemHeap.heapInitalized h1 = false
    ∧ MemHeap.pageSize h1 = MemHeap.pageSize h + 40
    ∧ objects w1 = [{| obj_at := p; obj_size := 40; obj_reserved := 40 |}]
    ∧ MemHeap.Deallocate 40 (Some p) h1 w1 = Some (MEMERR_NO_ERR, None, h1, w2)
    ∧ objects w2 = []
    ∧ MemHeap.Deallocate 40 None h w = Some (MEMERR_INVALID_MEM, None, h, w).
Proof.
  do 7 eexists.
  split; [vm_compute; reflexivity|].
  split; [reflexivity|].
  split; [vm_compute; reflexivity|].
  repeat split; vm_compute; reflexivity.
Qed.

(** C4 (in every reachable state the offset is at most the capacity of the
    page, and an object is only placed where offset + padded size ≤
    capacity).  The capacity is never consulted.  After initialising with
    pages of 64 bytes, at most 3 pages and alignment 8, and allocating
    objects of 40, 8 and 56 bytes, the arena is in a reachable state whose
    current page has 64 bytes, whose offset is 104, and where an object of
    56 reserved bytes lives at offset 48 of that page. *)
Theorem offset_past_page_capacity :
  ∃ r h w pg o,
    run [init_64_3_8; T40; T8; T56] fresh_arena world0 = Some (r, h, w)
    ∧ reachable h w
    ∧ current_page h = Some pg
    ∧ page_cap pg < MemHeap.pageSize h
    ∧ MemHeap.maxPageSize h < MemHeap.pageSize h
    ∧ o ∈ objects w
    ∧ ptr_page (obj_at o) = Some pg
    ∧ page_cap pg < ptr_off (obj_at o) + obj_reserved o.
Proof.
  destruct (run [init_64_3_8; T40; T8; T56] fresh_arena world0)
    as [[[r h] w]|] eqn:Hrun; [|vm_compute in Hrun; discriminate].
  exists r, h, w, {| page_id := 1; page_cap := 64 |},
    {| obj_at := {| ptr_page := Some {| page_id := 1; page_cap := 64 |};
                    ptr_off := 48 |};
       obj_size := 56; obj_reserved := 56 |}.
  split; [reflexivity|].
  split; [eapply run_reachable, Hrun|].
  vm_compute in Hrun. injection Hrun as <- <- <-.
  repeat split; try (vm_compute; reflexivity).
  apply list_elem_of_here.
Qed.

(** C6 (the padded size is [sizeof(T)] rounded up to the next multiple of
    the alignment).  The code computes [sizeof(T) + sizeof(T) % allignment].
    For a type of 5 bytes and alignment 8 that is 10, not 8, and 10 is what
    [Allocate] sets aside. *)
Theorem objPageSize_is_not_round_up :
  MemHeap.objPageSize 5 8 = 10
  ∧ round_up 5 8 = 8
  ∧ ∃ r h w p h' w',
      run [init_64_3_8] fresh_arena world0 = Some (r, h, w)
      ∧ MemHeap.allignment h = 8
      ∧ MemHeap.Allocate 5 Returns Returns None h w
        = Some (MEMERR_NO_ERR, Some p, h', w')
      ∧ MemHeap.pageSize h' = MemHeap.pageSize h + 10
      ∧ objects w' = [{| obj_at := p; obj_size := 5; obj_reserved := 10 |}].
Proof.
  split; [reflexivity|]. split; [reflexivity|].
  do 6 eexists.
  split; [vm_compute; reflexivity|].
  split; [reflexivity|].
  split; [vm_compute; reflexivity|].
  split; vm_compute; reflexivity.
Qed.

(** ** The trace log *)

(** Whatever happens, a caller who passes an address for the result finds
    [MEMERR_NO_ERR] there: every path of the constructor ends by storing
    it. *)
Lemma ctor_reports_NO_ERR (path : string) (clear : bool) (e0 : MEMERR)
    (tf : option MemTrace.memtracefunc) (w : World) :
  (MemTrace.ctor path clear (Some e0) tf w).1.2 = Some MEMERR_NO_ERR.
Proof.
  unfold MemTrace.ctor. destruct (is_empty path).
  - by destruct tf.
  - destruct clear.
    + destruct (MemTrace.ClearFile _ w) as [[e1 m] w1].
      destruct (negb _); by destruct tf.
    + destruct (fstream_open _ _ _ w) as [f w1].
      destruct (negb _); by destruct tf.
Qed.

Lemma ClearFile_traceLog (m : MemTrace.t) (w : World) :
  MemTrace.traceLog (MemTrace.ClearFile m w).1.2 = MemTrace.traceLog m.
Proof.
  unfold MemTrace.ClearFile. destruct (is_empty _); [done|].
  destruct (fstream_open _ out_trunc _ w) as [f1 w1].
  destruct (negb (is_open f1)); [done|].
  destruct (fstream_open _ out_app _ w1) as [f3 w2].
  by destruct (negb (is_open f3)).
Qed.

(** X25: with a path, whatever the arguments and the file system, the
    constructor leaves logging enabled exactly when the file ended up
    open. *)
Lemma ctor_traceLog (path : string) (clear : bool) (error : option MEMERR)
    (tf : option MemTrace.memtracefunc) (w : World) :
  is_empty path = false →
  let m := (MemTrace.ctor path clear error tf w).1.1 in
  MemTrace.traceLog m = is_open (MemTrace.traceFile m).
Proof.
  intros Hp. unfold MemTrace.ctor. rewrite Hp.
  destruct clear.
  - pose proof (ClearFile_traceLog
                  (MemTrace.set_traceLog true
                     {| MemTrace.traceLog := false; MemTrace.traceFunc := tf;
                        MemTrace.traceFile := fstream_init;
                        MemTrace.filePath := path |}) w) as Hl.
    destruct (MemTrace.ClearFile _ w) as [[e1 m] w1]. cbn in Hl.
    destruct (is_open (MemTrace.traceFile m)) eqn:Ho; cbn; by rewrite ?Ho.
  - destruct (fstream_open _ _ _ w) as [f w1].
    destruct (is_open f) eqn:Ho; cbn; by rewrite ?Ho.
Qed.

(** C7 (a path whose file does not end up open disables logging and
    reports InvalidFile; an open file reports NoError).  The constructor
    stores [MEMERR_INVALID_FILE] and then, unconditionally,
    [MEMERR_NO_ERR].  For a path that cannot be opened, with or without
    clearing, the file is not open, logging is disabled, and the caller reads
    [MEMERR_NO_ERR]. *)
Theorem ctor_unopened_file_reports_NO_ERR :
  ∀ clear : bool,
    ∃ m w,
      MemTrace.ctor missing_path clear (Some MEMERR_UNKNOWN)
        (Some MemTrace.DefaultTrace) world_files
      = (m, Some MEMERR_NO_ERR, w)
      ∧ is_open (MemTrace.traceFile m) = false
      ∧ MemTrace.traceLog m = false
      ∧ MemTrace.LogMessage m "X" w = Some (MEMERR_UNINITALIZED, w).
Proof.
  intros [|]; do 2 eexists; (split; [vm_compute; reflexivity|]);
    repeat split; vm_compute; reflexivity.
Qed.

(** [ClearFile] closes the stream when it is _not_ open.  On an open stream
    the truncating [open] is refused, the file keeps its contents, and the
    stream is closed and reopened for appending. *)
Lemma ClearFile_open_handle (m : MemTrace.t) (w : World) (q : string) :
  is_empty (MemTrace.filePath m) = false →
  open_path (MemTrace.traceFile m) = Some q →
  MemTrace.filePath m ∉ denied w →
  ∃ m' w',
    MemTrace.ClearFile m w = (MEMERR_NO_ERR, m', w')
    ∧ is_open (MemTrace.traceFile m') = true
    ∧ files w' !! MemTrace.filePath m
      = Some (default EmptyString (files w !! MemTrace.filePath m)).
Proof.
  destruct m as [tl tf [op fb] fp]. cbn. intros Hp -> Hd.
  unfold MemTrace.ClearFile, fstream_open, fstream_close, is_open.
  cbn. rewrite Hp. cbn. rewrite decide_False by done.
  do 2 eexists. split; [reflexivity|]. split; [done|].
  cbn. apply lookup_insert_eq.
Qed.

(** On a closed stream [ClearFile] does empty the file. *)
Lemma ClearFile_closed_handle (m : MemTrace.t) (w : World) :
  is_empty (MemTrace.filePath m) = false →
  open_path (MemTrace.traceFile m) = None →
  MemTrace.filePath m ∉ denied w →
  ∃ m' w',
    MemTrace.ClearFile m w = (MEMERR_NO_ERR, m', w')
    ∧ MemTrace.traceFile m'
      = {| open_path := Some (MemTrace.filePath m); failbit := false |}
    ∧ files w' !! MemTrace.filePath m = Some EmptyString.
Proof.
  destruct m as [tl tf [op fb] fp]. cbn. intros Hp -> Hd.
  unfold MemTrace.ClearFile, fstream_open, fstream_close, is_open.
  cbn. rewrite Hp. cbn. rewrite decide_False by done. cbn.
  rewrite decide_False by done.
  do 2 eexists. split; [reflexivity|]. split; [done|].
  cbn. rewrite lookup_insert_eq. cbn. by rewrite lookup_insert_eq.
Qed.

(** X28: on a log whose stream is closed and whose file can be opened,
    [ClearFile] returns [MEMERR_NO_ERR] and [LogMessage] after it leaves in
    the file exactly the one line, whatever the file held. *)
Lemma ClearFile_closed_then_LogMessage (m : MemTrace.t) (msg : string) (w : World) :
  is_empty (MemTrace.filePath m) = false →
  open_path (MemTrace.traceFile m) = None →
  MemTrace.filePath m ∉ denied w →
  MemTrace.traceLog m = true →
  MemTrace.traceFunc m = Some MemTrace.DefaultTrace →
  ∃ m' w' w'',
    MemTrace.ClearFile m w = (MEMERR_NO_ERR, m', w')
    ∧ MemTrace.LogMessage m' msg w' = Some (MEMERR_NO_ERR, w'')
    ∧ files w'' !! MemTrace.filePath m = Some (msg +:+ endl).
Proof.
  destruct m as [tl tf [op fb] fp]. cbn. intros Hp -> Hd -> ->.
  unfold MemTrace.ClearFile, fstream_open, fstream_close, is_open.
  cbn. rewrite Hp. cbn. rewrite decide_False by done. cbn.
  rewrite decide_False by done.
  do 3 eexists. split; [reflexivity|]. split; [reflexivity|].
  cbn. rewrite lookup_insert_eq. cbn. by rewrite !lookup_insert_eq.
Qed.

(** C8 ([ClearFile] closes an open handle, truncates, reopens for
    appending; so [ClearFile] then [LogMessage "X"] leaves exactly the line
    X).  The test before the first [close] is inverted.  For a log opened
    without clearing on a file that holds the line "old": [ClearFile] returns
    [MEMERR_NO_ERR] and the file still holds "old"; after [LogMessage "X"]
    it holds the two lines "old" and "X". *)
Theorem ClearFile_on_open_file_keeps_contents :
  ∃ m w1 m2 w2 w3,
    MemTrace.ctor trace_path false None (Some MemTrace.DefaultTrace) world_files
    = (m, None, w1)
    ∧ is_open (MemTrace.traceFile m) = true
    ∧ MemTrace.ClearFile m w1 = (MEMERR_NO_ERR, m2, w2)
    ∧ files w2 !! trace_path = Some ("old" +:+ endl)
    ∧ MemTrace.LogMessage m2 "X" w2 = Some (MEMERR_NO_ERR, w3)
    ∧ files w3 !! trace_path = Some ("old" +:+ endl +:+ "X" +:+ endl)
    ∧ files w3 !! trace_path ≠ Some ("X" +:+ endl).
Proof.
  do 5 eexists.
  split; [vm_compute; reflexivity|].
  split; [reflexivity|].
  split; [vm_compute; reflexivity|].
  split; [vm_compute; reflexivity|].
  split; [vm_compute; reflexivity|].
  split; [vm_compute; reflexivity|].
  vm_compute. discriminate.
Qed.

(** ** The event sink *)

Lemma LogMessage_defined (m : MemTrace.t) (msg : string) (w : World) :
  is_Some (MemTrace.traceFunc m) → is_Some (MemTrace.LogMessage m msg w).
Proof.
  intros [f Hf]. unfold MemTrace.LogMessage, MemTrace.call_traceFunc.
  rewrite Hf. destruct (negb _); [done|].
  destruct (is_open _); by destruct f.
Qed.

(** C9, counterexample: an allocate event dispatched through one sink
    changes the counters read through another. *)
Lemma counters_shared_between_sinks :
  sink_plain ≠ sink_console
  ∧ ∃ w,
      MemCallback.PerformCallback sink_plain MEMCALL_ALLOC 8 world0
      = Some (MEMERR_NO_ERR, w)
      ∧ MemCallback.counters sink_console world0 = (0, 0, 0)
      ∧ MemCallback.counters sink_console w = (1, 0, 8).
Proof.
  split; [discriminate|].
  eexists. split; [vm_compute; reflexivity|]. split; reflexivity.
Qed.

(** C9, amended: the counters are static members, one set for the whole
    class.  An event dispatched through any initialised sink with the default
    callback returns [MEMERR_NO_ERR] and updates the counters that every
    sink [c'] reads: an allocate event adds one allocation and [n] bytes, a
    deallocate event adds one deallocation and takes [n] bytes away (with
    wrap-around), the other two kinds change nothing. *)
Theorem PerformCallback_counters_shared (c c' : MemCallback.t) (msg : MEMCALL)
    (n : Z) (w : World) :
  MemCallback.callbackInit c = true →
  MemCallback.callback c = Some MemCallback.DefaultCallback →
  trace_callable c →
  ∃ w',
    MemCallback.PerformCallback c msg n w = Some (MEMERR_NO_ERR, w')
    ∧ MemCallback.counters c' w'
      = match msg with
        | MEMCALL_ALLOC =>
            (wrap32 (allocs w + 1), deallocs w, wrap64 (memInUse w + n))
        | MEMCALL_DEALLOC =>
            (allocs w, wrap32 (deallocs w + 1), wrap64 (memInUse w - n))
        | _ => MemCallback.counters c' w
        end.
Proof.
  intros Hi Hc Ht.
  unfold MemCallback.PerformCallback, MemCallback.call_callback,
    MemCallback.CallbackFunc, MemCallback.counters.
  rewrite Hi, Hc.
  destruct (MemCallback.traceClass c) as [tr|] eqn:Htr.
  - specialize (Ht tr Htr).
    destruct msg; cbn;
      match goal with
      | |- context [MemTrace.LogMessage tr ?s ?w0] =>
          destruct (LogMessage_defined tr s w0 Ht) as [[e1 w1] HL];
          rewrite HL; cbn;
          apply LogMessage_objects in HL as (_ & _ & HL)
      end;
      (eexists; split; [reflexivity|]); rewrite HL; reflexivity.
  - destruct msg; (eexists; split; [reflexivity|]); reflexivity.
Qed.

Lemma PerformCallback_counters_shared_witness :
  ∃ w',
    MemCallback.PerformCallback sink_console MEMCALL_DEALLOC 8 world0
    = Some (MEMERR_NO_ERR, w')
    ∧ MemCallback.counters sink_plain w'
      = (0, 1, 2 ^ 64 - 8).
Proof.
  destruct (PerformCallback_counters_shared sink_console sink_plain
              MEMCALL_DEALLOC 8 world0) as (w' & Hp & Hc).
  - reflexivity.
  - reflexivity.
  - intros tr [= <-]. by eexists.
  - exists w'. split; [exact Hp|]. rewrite Hc. reflexivity.
Defined.

(** ** Guard, construction and notification *)

Lemma Allocate_after_guard (sizeofT : Z) (c o : Outcome) (slot : option ptr)
    (h : MemHeap.t) (w : World) h1 w1 :
  MemHeap.allignment h ≠ 0 →
  page_request (MemHeap.objPageSize sizeofT (MemHeap.allignment h)) o h w
  = Some (h1, w1) →
  MemHeap.Allocate sizeofT c o slot h w
  = if guard slot h1 then Some (MEMERR_DOUBLE_ALLOC, slot, h1, w1)
    else construct sizeofT (MemHeap.objPageSize sizeofT (MemHeap.allignment h))
           c slot h1 w1.
Proof.
  intros Ha Hp. rewrite Allocate_eq.
  destruct (Z.eqb_spec (MemHeap.allignment h) 0); [done|].
  cbn zeta. by rewrite Hp.
Qed.

(** When the event is forwarded, its result is the result of the call. *)
Lemma construct_forwards (sizeofT size : Z) (slot : option ptr)
    (h1 : MemHeap.t) (w1 : World) c e w3 :
  MemHeap.callback h1 = Some c →
  MemHeap.has_flag h1 MEMFLAGS_DISABLE_DEBUG_MSG = false →
  MemCallback.PerformCallback c MEMCALL_ALLOC sizeofT (placed sizeofT size h1 w1)
  = Some (e, w3) →
  construct sizeofT size Returns slot h1 w1
  = Some (e, Some (place_ptr h1), bumped size h1, w3).
Proof.
  intros Hc Hf Hp. unfold construct. cbn zeta.
  change (MemHeap.callback (MemHeap.set_pageSize _ h1)) with (MemHeap.callback h1).
  change (MemHeap.has_flag (MemHeap.set_pageSize _ h1) MEMFLAGS_DISABLE_DEBUG_MSG)
    with (MemHeap.has_flag h1 MEMFLAGS_DISABLE_DEBUG_MSG).
  rewrite Hc, Hf. cbn [negb]. unfold placed in Hp. rewrite Hp. cbn.
  case_decide as He; [done|].
  destruct (decide (e = MEMERR_NO_ERR)) as [->|]; done.
Qed.

(** When no event is forwarded, the call succeeds. *)
Lemma construct_silent (sizeofT size : Z) (slot : option ptr)
    (h1 : MemHeap.t) (w1 : World) :
  MemHeap.callback h1 = None
  ∨ MemHeap.has_flag h1 MEMFLAGS_DISABLE_DEBUG_MSG = true →
  construct sizeofT size Returns slot h1 w1
  = Some (MEMERR_NO_ERR, Some (place_ptr h1), bumped size h1,
          placed sizeofT size h1 w1).
Proof.
  intros Hs. unfold construct. cbn zeta.
  change (MemHeap.callback (MemHeap.set_pageSize _ h1)) with (MemHeap.callback h1).
  change (MemHeap.has_flag (MemHeap.set_pageSize _ h1) MEMFLAGS_DISABLE_DEBUG_MSG)
    with (MemHeap.has_flag h1 MEMFLAGS_DISABLE_DEBUG_MSG).
  destruct (MemHeap.callback h1); [|done].
  destruct Hs as [?| ->]; done.
Qed.



Lemma arena_initialized (c : MemCallback.t) :
  MemHeap.InitalizeHeapMem 64 3 8 (Some c) Returns Returns fresh_arena world0
  = Some (MEMERR_NO_ERR, arena 0 (Some c), world1).
Proof. reflexivity. Qed.




(** ** The guard against a slot in use *)




(** * Further properties *)

(** Closes [¬ (e ≠ e)]. *)
Ltac not_ne := let Hn := fresh in intros Hn; by apply Hn.

(** ** The trace log and its file *)

Lemma append_assoc (a b c : string) : (a +:+ b) +:+ c = a +:+ b +:+ c.
Proof.
  induction a as [|x a IH]; [done|].
  change (String x ((a +:+ b) +:+ c) = String x (a +:+ b +:+ c)).
  by rewrite IH.
Qed.

Lemma append_empty_r (a : string) : a +:+ EmptyString = a.
Proof.
  induction a as [|x a IH]; [done|].
  change (String x (a +:+ EmptyString) = String x a). by rewrite IH.
Qed.

Lemma same_but_files_set_files (f : gmap string string) (w : World) :
  same_but_files w (set_files f w).
Proof. by repeat split. Qed.

Lemma same_but_files_trans (w1 w2 w3 : World) :
  same_but_files w1 w2 → same_but_files w2 w3 → same_but_files w1 w3.
Proof.
  unfold same_but_files. intros (?&?&?&?&?&?&?&?) (?&?&?&?&?&?&?&?).
  repeat split; congruence.
Qed.

(** What the constructor leaves when the file can be opened. *)
Lemma ctor_opens (path : string) (clear : bool) (error : option MEMERR)
    (tf : MemTrace.memtracefunc) (w : World) :
  is_empty path = false → path ∉ denied w →
  ∃ w1,
    MemTrace.ctor path clear error (Some tf) w
    = ({| MemTrace.traceLog := true; MemTrace.traceFunc := Some tf;
          MemTrace.traceFile := {| open_path := Some path; failbit := false |};
          MemTrace.filePath := path |},
       store error MEMERR_NO_ERR, w1)
    ∧ files w1 !! path
      = Some (if clear then EmptyString else default EmptyString (files w !! path))
    ∧ (∀ q, q ≠ path → files w1 !! q = files w !! q)
    ∧ same_but_files w w1.
Proof.
  intros Hp Hd.
  unfold MemTrace.ctor, MemTrace.ClearFile, fstream_open, fstream_close, is_open.
  rewrite Hp. destruct clear; cbn; rewrite ?Hp; cbn.
  - rewrite decide_False by done. cbn. rewrite decide_False by done. cbn.
    eexists. split; [by destruct error|].
    cbn. rewrite !lookup_insert_eq. cbn. split; [done|].
    split; [|by repeat split].
    intros q Hq. by rewrite !lookup_insert_ne.
  - rewrite decide_False by done. cbn.
    eexists. split; [by destruct error|].
    cbn. rewrite lookup_insert_eq. split; [done|].
    split; [|by repeat split].
    intros q Hq. by rewrite lookup_insert_ne.
Qed.

(** Messages logged through an open, good stream pile up at the end of the
    file, one per line. *)
Lemma log_all_file (m : MemTrace.t) (path : string) (msgs : list string) :
  MemTrace.traceLog m = true →
  MemTrace.traceFunc m = Some MemTrace.DefaultTrace →
  MemTrace.traceFile m = {| open_path := Some path; failbit := false |} →
  ∀ (w : World) (c : string),
    files w !! path = Some c →
    ∃ w',
      log_all m msgs w = Some ((λ _, MEMERR_NO_ERR) <$> msgs, w')
      ∧ files w' !! path = Some (c +:+ lines msgs)
      ∧ (∀ q, q ≠ path → files w' !! q = files w !! q)
      ∧ same_but_files w w'.
Proof.
  intros Hl Hf Hs. induction msgs as [|msg rest IH]; intros w c Hc.
  - exists w. cbn. rewrite append_empty_r. by repeat split.
  - cbn [log_all].
    unfold MemTrace.LogMessage, MemTrace.call_traceFunc, MemTrace.PrintMessage,
      fstream_write_line, is_open.
    rewrite Hl, Hf, Hs. cbn [negb open_path failbit mbind option_bind].
    rewrite Hc. cbn [default].
    match goal with
    | |- context [log_all m rest ?w1] =>
        destruct (IH w1 (c +:+ msg +:+ endl)) as (w' & Hrun & Hfile & Hrest & Hsame);
          [apply lookup_insert_eq|]
    end.
    exists w'. rewrite Hrun. cbn. split; [done|].
    split; [|split].
    + rewrite Hfile. f_equal. cbn [lines]. by rewrite !append_assoc.
    + intros q Hq. rewrite (Hrest q Hq). cbn. by rewrite lookup_insert_ne.
    + eapply same_but_files_trans; [apply same_but_files_set_files|exact Hsame].
Qed.

(** X1: a trace log on a file that can be opened.  After construction
    (clearing or not) and any list of messages, every [LogMessage] returned
    [MEMERR_NO_ERR]; the file holds what it held (nothing, when cleared)
    followed by the messages, one per line and in order; no other file and
    nothing else in the world has changed. *)
Theorem log_file_contents (path : string) (clear : bool)
    (error : option MEMERR) (msgs : list string) (w : World) :
  is_empty path = false → path ∉ denied w →
  ∃ m e w1 w2,
    MemTrace.ctor path clear error (Some MemTrace.DefaultTrace) w = (m, e, w1)
    ∧ log_all m msgs w1 = Some ((λ _, MEMERR_NO_ERR) <$> msgs, w2)
    ∧ files w2 !! path
      = Some ((if clear then EmptyString
               else default EmptyString (files w !! path)) +:+ lines msgs)
    ∧ (∀ q, q ≠ path → files w2 !! q = files w !! q)
    ∧ same_but_files w w2.
Proof.
  intros Hp Hd.
  destruct (ctor_opens path clear error MemTrace.DefaultTrace w Hp Hd)
    as (w1 & Hc & Hf1 & Hq1 & Hs1).
  destruct (log_all_file
              {| MemTrace.traceLog := true;
                 MemTrace.traceFunc := Some MemTrace.DefaultTrace;
                 MemTrace.traceFile := {| open_path := Some path; failbit := false |};
                 MemTrace.filePath := path |}
              path msgs eq_refl eq_refl eq_refl w1 _ Hf1)
    as (w2 & Hrun & Hf2 & Hq2 & Hs2).
  eexists _, _, w1, w2. split; [exact Hc|]. split; [exact Hrun|].
  split; [exact Hf2|]. split.
  - intros q Hq. by rewrite (Hq2 q Hq), (Hq1 q Hq).
  - eapply same_but_files_trans; eassumption.
Qed.

Lemma log_file_contents_witness :
  ∃ m e w1 w2,
    MemTrace.ctor trace_path false None (Some MemTrace.DefaultTrace) world_files
    = (m, e, w1)
    ∧ log_all m ["a"; "b"] w1 = Some ([MEMERR_NO_ERR; MEMERR_NO_ERR], w2)
    ∧ files w2 !! trace_path
      = Some ("old" +:+ endl +:+ "a" +:+ endl +:+ "b" +:+ endl).
Proof.
  destruct (log_file_contents trace_path false None ["a"; "b"] world_files)
    as (m & e & w1 & w2 & Hc & Hrun & Hf & _).
  - reflexivity.
  - vm_compute. intros H. discriminate H.
  - exists m, e, w1, w2. split; [exact Hc|]. split; [exact Hrun|].
    rewrite Hf. reflexivity.
Defined.

Lemma unopenable_log_is_inert_aux (path : string) (clear : bool)
    (error : option MEMERR) (tf : option MemTrace.memtracefunc) (w : World) :
  is_empty path = false → path ∈ denied w →
  ∃ m,
    MemTrace.ctor path clear error tf w = (m, store error MEMERR_NO_ERR, w)
    ∧ MemTrace.traceLog m = false
    ∧ is_open (MemTrace.traceFile m) = false
    ∧ ∃ m', MemTrace.ClearFile m w = (MEMERR_INVALID_FILE, m', w)
            ∧ MemTrace.traceLog m' = false
            ∧ is_open (MemTrace.traceFile m') = false.
Proof.
  intros Hp Hd.
  unfold MemTrace.ctor, MemTrace.ClearFile, fstream_open, fstream_close, is_open.
  rewrite Hp.
  destruct clear; cbn; rewrite ?Hp; cbn; rewrite decide_True by done; cbn;
    (eexists; split; [by destruct error, tf|]);
    (split; [done|]); (split; [done|]);
    unfold MemTrace.ClearFile, fstream_open, fstream_close, is_open;
    cbn; rewrite Hp; cbn; rewrite decide_True by done; cbn;
    by eexists.
Qed.

(** X2: a trace log on a path that cannot be opened is inert.  The
    constructor changes nothing in the world and still reports
    [MEMERR_NO_ERR]; afterwards every [LogMessage] returns
    [MEMERR_UNINITALIZED] and writes nothing, [GetFile] gives no handle and
    [MEMERR_INVALID_FILE], and [ClearFile] returns [MEMERR_INVALID_FILE]
    with the stream still closed and the world as it was. *)
Theorem unopenable_log_is_inert (path : string) (clear : bool)
    (error : option MEMERR) (tf : option MemTrace.memtracefunc) (w : World) :
  is_empty path = false → path ∈ denied w →
  ∃ m,
    MemTrace.ctor path clear error tf w = (m, store error MEMERR_NO_ERR, w)
    ∧ (∀ msg, MemTrace.LogMessage m msg w = Some (MEMERR_UNINITALIZED, w))
    ∧ (∀ e, MemTrace.GetFile m e = (None, store e MEMERR_INVALID_FILE))
    ∧ ∃ m', MemTrace.ClearFile m w = (MEMERR_INVALID_FILE, m', w)
            ∧ is_open (MemTrace.traceFile m') = false.
Proof.
  intros Hp Hd.
  destruct (unopenable_log_is_inert_aux path clear error tf w Hp Hd)
    as (m & Hc & Hl & Ho & m' & Hcl & _ & Ho').
  exists m. split; [exact Hc|].
  unfold MemTrace.LogMessage, MemTrace.GetFile. rewrite Hl, Ho.
  repeat split. by exists m'.
Qed.

Lemma unopenable_log_is_inert_witness :
  ∃ m,
    MemTrace.ctor missing_path true (Some MEMERR_UNKNOWN)
      (Some MemTrace.DefaultTrace) world_files
    = (m, Some MEMERR_NO_ERR, world_files)
    ∧ MemTrace.LogMessage m "X" world_files
      = Some (MEMERR_UNINITALIZED, world_files).
Proof.
  destruct (unopenable_log_is_inert missing_path true (Some MEMERR_UNKNOWN)
              (Some MemTrace.DefaultTrace) world_files)
    as (m & Hc & Hl & _).
  - reflexivity.
  - vm_compute. reflexivity.
  - exists m. split; [exact Hc|apply Hl].
Defined.

Lemma log_all_console (m : MemTrace.t) (msgs : list string) :
  MemTrace.traceLog m = true →
  MemTrace.traceFunc m = Some MemTrace.DefaultTrace →
  is_open (MemTrace.traceFile m) = false →
  ∀ w, log_all m msgs w
       = Some ((λ _, MEMERR_NO_ERR) <$> msgs,
               set_console (console w +:+ lines msgs) w).
Proof.
  intros Hl Hf Ho. induction msgs as [|msg rest IH]; intros w.
  - cbn. rewrite append_empty_r. by destruct w.
  - cbn [log_all].
    unfold MemTrace.LogMessage, MemTrace.call_traceFunc, MemTrace.PrintMessage.
    rewrite Hl, Hf, Ho. cbn [negb mbind option_bind].
    rewrite IH. cbn. do 2 f_equal.
    unfold set_console. cbn. by rewrite !append_assoc.
Qed.

(** X3: a trace log without a path writes to the console only.  The
    constructor opens nothing, changes nothing and enables logging;
    [GetFile] and [ClearFile] fail with [MEMERR_INVALID_FILE]; any list of
    messages is appended to the console, one per line and in order, with
    [MEMERR_NO_ERR] each time, and no file is touched. *)
Theorem empty_path_log_writes_console (clear : bool) (error : option MEMERR)
    (msgs : list string) (w : World) :
  ∃ m,
    MemTrace.ctor EmptyString clear error (Some MemTrace.DefaultTrace) w
    = (m, store error MEMERR_NO_ERR, w)
    ∧ MemTrace.traceLog m = true
    ∧ (∀ e, MemTrace.GetFile m e = (None, store e MEMERR_INVALID_FILE))
    ∧ MemTrace.ClearFile m w = (MEMERR_INVALID_FILE, m, w)
    ∧ log_all m msgs w
      = Some ((λ _, MEMERR_NO_ERR) <$> msgs,
              set_console (console w +:+ lines msgs) w).
Proof.
  eexists. split; [reflexivity|]. split; [reflexivity|].
  split; [done|]. split; [reflexivity|].
  by apply log_all_console.
Qed.

(** X4: a null trace function.  The constructor stores
    [MEMERR_INVALID_FUNCTION_PARAMETER] and then overwrites it: the caller
    reads [MEMERR_NO_ERR].  Logging is enabled all the same when there is no
    path or the file opens, and then every [LogMessage] calls the null
    pointer. *)
Theorem null_trace_function_is_accepted (path : string) (clear : bool)
    (e0 : MEMERR) (w : World) :
  is_empty path = true ∨ path ∉ denied w →
  ∃ m w1,
    MemTrace.ctor path clear (Some e0) None w = (m, Some MEMERR_NO_ERR, w1)
    ∧ MemTrace.traceLog m = true
    ∧ ∀ msg w2, MemTrace.LogMessage m msg w2 = None.
Proof.
  intros Hok.
  unfold MemTrace.ctor, MemTrace.ClearFile, fstream_open, fstream_close, is_open.
  destruct (is_empty path) eqn:Hp.
  - eexists _, _. split; [reflexivity|]. split; [reflexivity|]. done.
  - destruct Hok as [?|Hd]; [done|].
    destruct clear; cbn; rewrite ?Hp; cbn; rewrite decide_False by done; cbn;
      rewrite ?decide_False by done; cbn;
      (eexists _, _; split; [reflexivity|]); (split; [reflexivity|]); done.
Qed.

Lemma null_trace_function_is_accepted_witness :
  ∃ m w1,
    MemTrace.ctor trace_path false (Some MEMERR_UNKNOWN) None world_files
    = (m, Some MEMERR_NO_ERR, w1)
    ∧ MemTrace.traceLog m = true
    ∧ MemTrace.LogMessage m "X" w1 = None.
Proof.
  destruct (null_trace_function_is_accepted trace_path false MEMERR_UNKNOWN
              world_files) as (m & w1 & Hc & Hl & Hn).
  - right. vm_compute. intros H. discriminate H.
  - exists m, w1. split; [exact Hc|]. split; [exact Hl|apply Hn].
Defined.

(** X5: the frame of [ClearFile].  Whatever it returns, it touches no file
    but its own, nothing else in the world, and none of the settings of the
    log; it returns [MEMERR_NO_ERR] only with the stream open, and for a log
    with a path it returns [MEMERR_INVALID_FILE] only with the stream
    closed. *)
Theorem ClearFile_frame (m : MemTrace.t) (w : World) :
  let e := (MemTrace.ClearFile m w).1.1 in
  let m' := (MemTrace.ClearFile m w).1.2 in
  let w' := (MemTrace.ClearFile m w).2 in
  same_but_files w w'
  ∧ (∀ q, q ≠ MemTrace.filePath m → files w' !! q = files w !! q)
  ∧ MemTrace.filePath m' = MemTrace.filePath m
  ∧ MemTrace.traceLog m' = MemTrace.traceLog m
  ∧ MemTrace.traceFunc m' = MemTrace.traceFunc m
  ∧ (e = MEMERR_NO_ERR ∨ e = MEMERR_INVALID_FILE)
  ∧ (e = MEMERR_NO_ERR → is_open (MemTrace.traceFile m') = true)
  ∧ (is_empty (MemTrace.filePath m) = false → e = MEMERR_INVALID_FILE →
     is_open (MemTrace.traceFile m') = false).
Proof.
  destruct m as [tl tf [op fb] fp].
  unfold MemTrace.ClearFile, fstream_open, fstream_close, is_open. cbn.
  destruct (is_empty fp) eqn:Hp; cbn.
  { repeat split; try done. by right. }
  destruct op as [q0|]; cbn.
  - destruct (decide (fp ∈ denied w)); cbn;
      repeat split; try done; try (by left); try (by right);
      intros q Hq; by rewrite ?lookup_insert_ne.
  - destruct (decide (fp ∈ denied w)); cbn.
    + repeat split; try done. by right.
    + rewrite decide_False by done. cbn.
      repeat split; try done; try (by left).
      intros q Hq. by rewrite !lookup_insert_ne.
Qed.

Lemma ctor_traceLog_witness :
  MemTrace.traceLog
    (MemTrace.ctor missing_path true None (Some MemTrace.DefaultTrace)
       world_files).1.1
  = false
  ∧ MemTrace.traceLog
      (MemTrace.ctor trace_path true None (Some MemTrace.DefaultTrace)
         world_files).1.1
    = true.
Proof.
  split.
  - rewrite (ctor_traceLog missing_path true None (Some MemTrace.DefaultTrace)
               world_files eq_refl). reflexivity.
  - rewrite (ctor_traceLog trace_path true None (Some MemTrace.DefaultTrace)
               world_files eq_refl). reflexivity.
Defined.

(** ** The unit tests *)

Lemma Trace_txt_not_empty : is_empty Trace_txt = false ∧ is_empty Trace2_txt = false.
Proof. done. Qed.

(** X6: [UnitTest_MemTrace_File] on a path that can be opened passes, and
    leaves in the file exactly the one line it logs, whatever the file held
    before; no other file and nothing else in the world changes. *)
Theorem UnitTest_MemTrace_File_passes (error0 : MEMERR) (w : World) :
  Trace_txt ∉ denied w →
  ∃ w',
    UnitTest_MemTrace_File error0 w = Passed w'
    ∧ files w' !! Trace_txt = Some ("Test Default Trace Log" +:+ endl)
    ∧ (∀ q, q ≠ Trace_txt → files w' !! q = files w !! q)
    ∧ same_but_files w w'.
Proof.
  intros Hd. unfold UnitTest_MemTrace_File.
  destruct (ctor_opens Trace_txt true (Some error0) MemTrace.DefaultTrace w
              (proj1 Trace_txt_not_empty) Hd) as (w1 & -> & Hf & Hq & Hs).
  cbn [store]. rewrite decide_True by done.
  pose proof Hs as (_ & _ & _ & Hden & _).
  unfold MemTrace.ClearFile, fstream_open, fstream_close, is_open,
    MemTrace.LogMessage, MemTrace.call_traceFunc, MemTrace.PrintMessage,
    fstream_write_line.
  cbn. rewrite Hden, decide_False by done. cbn. rewrite Hf. cbn.
  rewrite decide_True by done. rewrite lookup_insert_eq. cbn.
  eexists. split; [reflexivity|]. cbn. rewrite lookup_insert_eq.
  split; [done|]. split.
  - intros q Hq'. rewrite !lookup_insert_ne by done. by apply Hq.
  - eapply same_but_files_trans; [exact Hs|]. by repeat split.
Qed.

Lemma UnitTest_MemTrace_File_passes_witness :
  ∃ w',
    UnitTest_MemTrace_File MEMERR_UNKNOWN world_files = Passed w'
    ∧ files w' !! Trace_txt = Some ("Test Default Trace Log" +:+ endl).
Proof.
  destruct (UnitTest_MemTrace_File_passes MEMERR_UNKNOWN world_files)
    as (w' & Hp & Hf & _).
  - vm_compute. intros H. discriminate H.
  - exists w'. split; [exact Hp|exact Hf].
Defined.

(** X7: [UnitTest_MemTrace_FileNoClear] on a path that can be opened passes
    and adds its line after what the file held; run a second time (its
    local [error] then holding anything), it adds the line again. *)
Theorem UnitTest_MemTrace_FileNoClear_appends (error0 error1 : MEMERR) (w : World) :
  Trace_txt ∉ denied w →
  ∃ w1 w2,
    UnitTest_MemTrace_FileNoClear error0 w = Passed w1
    ∧ files w1 !! Trace_txt
      = Some (default EmptyString (files w !! Trace_txt)
              +:+ "Test Default Trace Log (2)" +:+ endl)
    ∧ UnitTest_MemTrace_FileNoClear error1 w1 = Passed w2
    ∧ files w2 !! Trace_txt
      = Some (default EmptyString (files w !! Trace_txt)
              +:+ "Test Default Trace Log (2)" +:+ endl
              +:+ "Test Default Trace Log (2)" +:+ endl)
    ∧ (∀ q, q ≠ Trace_txt → files w2 !! q = files w !! q)
    ∧ same_but_files w w2.
Proof.
  assert (∀ e0 w0, Trace_txt ∉ denied w0 →
    ∃ w',
      UnitTest_MemTrace_FileNoClear e0 w0 = Passed w'
      ∧ files w' !! Trace_txt
        = Some (default EmptyString (files w0 !! Trace_txt)
                +:+ "Test Default Trace Log (2)" +:+ endl)
      ∧ (∀ q, q ≠ Trace_txt → files w' !! q = files w0 !! q)
      ∧ same_but_files w0 w') as Hone.
  { intros e0 w0 Hd. unfold UnitTest_MemTrace_FileNoClear.
    destruct (ctor_opens Trace_txt false (Some e0) MemTrace.DefaultTrace w0
                (proj1 Trace_txt_not_empty) Hd) as (w1 & -> & Hf & Hq & Hs).
    cbn [store]. rewrite decide_True by done.
    unfold MemTrace.LogMessage, MemTrace.call_traceFunc, MemTrace.PrintMessage,
      fstream_write_line, is_open.
    cbn. rewrite Hf. cbn. rewrite decide_True by done.
    eexists. split; [reflexivity|]. cbn. rewrite lookup_insert_eq.
    split; [done|]. split.
    - intros q Hq'. rewrite lookup_insert_ne by done. by apply Hq.
    - eapply same_but_files_trans; [exact Hs|]. by repeat split. }
  intros Hd.
  destruct (Hone error0 w Hd) as (w1 & Hp1 & Hf1 & Hq1 & Hs1).
  assert (Trace_txt ∉ denied w1) as Hd1.
  { destruct Hs1 as (_ & _ & _ & -> & _). exact Hd. }
  destruct (Hone error1 w1 Hd1) as (w2 & Hp2 & Hf2 & Hq2 & Hs2).
  exists w1, w2. split; [exact Hp1|]. split; [exact Hf1|].
  split; [exact Hp2|]. split; [|split].
  - rewrite Hf2, Hf1. cbn [default from_option id]. by rewrite !append_assoc.
  - intros q Hq. by rewrite (Hq2 q Hq), (Hq1 q Hq).
  - eapply same_but_files_trans; eassumption.
Qed.

Lemma UnitTest_MemTrace_FileNoClear_appends_witness :
  ∃ w1 w2,
    UnitTest_MemTrace_FileNoClear MEMERR_UNKNOWN world_log = Passed w1
    ∧ UnitTest_MemTrace_FileNoClear MEMERR_NO_ERR w1 = Passed w2
    ∧ files w2 !! Trace_txt
      = Some ("old" +:+ endl
              +:+ "Test Default Trace Log (2)" +:+ endl
              +:+ "Test Default Trace Log (2)" +:+ endl).
Proof.
  destruct (UnitTest_MemTrace_FileNoClear_appends MEMERR_UNKNOWN MEMERR_NO_ERR
              world_log) as (w1 & w2 & Hp1 & _ & Hp2 & Hf2 & _).
  - vm_compute. intros H. discriminate H.
  - exists w1, w2. split; [exact Hp1|]. split; [exact Hp2|].
    rewrite Hf2. reflexivity.
Defined.

(** X8: [UnitTest_MemTrace_CheckGetFile] on a path that can be opened passes
    its four assertions and adds two lines after what the file held: first
    the one written through the handle, then the one logged. *)
Theorem UnitTest_MemTrace_CheckGetFile_passes (error0 : MEMERR) (w : World) :
  Trace_txt ∉ denied w →
  ∃ w',
    UnitTest_MemTrace_CheckGetFile error0 w = Passed w'
    ∧ files w' !! Trace_txt
      = Some (default EmptyString (files w !! Trace_txt)
              +:+ "Testing Get File Direct Write" +:+ endl
              +:+ "Testing Get File Log Write" +:+ endl)
    ∧ (∀ q, q ≠ Trace_txt → files w' !! q = files w !! q)
    ∧ same_but_files w w'.
Proof.
  intros Hd. unfold UnitTest_MemTrace_CheckGetFile.
  destruct (ctor_opens Trace_txt false (Some error0) MemTrace.DefaultTrace w
              (proj1 Trace_txt_not_empty) Hd) as (w1 & -> & Hf & Hq & Hs).
  cbn [store]. rewrite decide_True by done.
  unfold MemTrace.GetFile, MemTrace.LogMessage, MemTrace.call_traceFunc,
    MemTrace.PrintMessage, fstream_write_line, is_open.
  cbn. rewrite decide_True by done. rewrite Hf. cbn.
  rewrite lookup_insert_eq. cbn. rewrite decide_True by done.
  eexists. split; [reflexivity|]. cbn. rewrite lookup_insert_eq.
  split; [by rewrite !append_assoc|]. split.
  - intros q Hq'. rewrite !lookup_insert_ne by done. by apply Hq.
  - eapply same_but_files_trans; [exact Hs|]. by repeat split.
Qed.

Lemma UnitTest_MemTrace_CheckGetFile_passes_witness :
  ∃ w',
    UnitTest_MemTrace_CheckGetFile MEMERR_UNKNOWN world_log = Passed w'
    ∧ files w' !! Trace_txt
      = Some ("old" +:+ endl
              +:+ "Testing Get File Direct Write" +:+ endl
              +:+ "Testing Get File Log Write" +:+ endl).
Proof.
  destruct (UnitTest_MemTrace_CheckGetFile_passes MEMERR_UNKNOWN world_log)
    as (w' & Hp & Hf & _).
  - vm_compute. intros H. discriminate H.
  - exists w'. split; [exact Hp|]. rewrite Hf. reflexivity.
Defined.

(** X9: when the file cannot be opened, the assertion on the result of the
    constructor does not catch it: in each of the four tests on files the
    first assertion passes and the test stops in its second one, with the
    world untouched. *)
Theorem file_tests_stop_in_second_assertion (error0 : MEMERR) (w : World) :
  (Trace_txt ∈ denied w →
   UnitTest_MemTrace_File error0 w = AssertFailed 2 w
   ∧ UnitTest_MemTrace_FileNoClear error0 w = AssertFailed 2 w
   ∧ UnitTest_MemTrace_CheckGetFile error0 w = AssertFailed 2 w)
  ∧ (Trace2_txt ∈ denied w →
     UnitTest_MemTrace_FileDifferent error0 w = AssertFailed 2 w).
Proof.
  split; intros Hd.
  - destruct (unopenable_log_is_inert_aux Trace_txt true (Some error0)
                (Some MemTrace.DefaultTrace) w (proj1 Trace_txt_not_empty) Hd)
      as (m1 & Hc1 & Hl1 & Ho1 & m1' & Hcl1 & Hl1' & _).
    destruct (unopenable_log_is_inert_aux Trace_txt false (Some error0)
                (Some MemTrace.DefaultTrace) w (proj1 Trace_txt_not_empty) Hd)
      as (m2 & Hc2 & Hl2 & Ho2 & _).
    unfold UnitTest_MemTrace_File, UnitTest_MemTrace_FileNoClear,
      UnitTest_MemTrace_CheckGetFile.
    rewrite Hc1, Hc2. cbn [store]. rewrite !decide_True by done.
    rewrite Hcl1. unfold MemTrace.LogMessage, MemTrace.GetFile.
    rewrite Hl1', Hl2, Ho2. cbn.
    repeat split; by case_decide.
  - destruct (unopenable_log_is_inert_aux Trace2_txt true (Some error0)
                (Some MemTrace.DefaultTrace) w (proj2 Trace_txt_not_empty) Hd)
      as (m1 & Hc1 & Hl1 & _).
    unfold UnitTest_MemTrace_FileDifferent.
    rewrite Hc1. cbn [store]. rewrite decide_True by done.
    unfold MemTrace.LogMessage. rewrite Hl1. cbn. by case_decide.
Qed.

Lemma file_tests_stop_in_second_assertion_witness :
  UnitTest_MemTrace_File MEMERR_UNKNOWN world_no_log = AssertFailed 2 world_no_log
  ∧ UnitTest_MemTrace_FileDifferent MEMERR_UNKNOWN world_no_log
    = AssertFailed 2 world_no_log.
Proof.
  destruct (file_tests_stop_in_second_assertion MEMERR_UNKNOWN world_no_log)
    as [H1 H2].
  split.
  - apply H1. vm_compute. reflexivity.
  - apply H2. vm_compute. reflexivity.
Defined.

(** X10: [UnitTest_MemTrace_FileDifferent] on a path that can be opened
    passes and leaves in its file exactly the one line it logs, whatever the
    file held before; the file of the other tests is not touched. *)
Theorem UnitTest_MemTrace_FileDifferent_passes (error0 : MEMERR) (w : World) :
  Trace2_txt ∉ denied w →
  ∃ w',
    UnitTest_MemTrace_FileDifferent error0 w = Passed w'
    ∧ files w' !! Trace2_txt = Some ("Test Default Trace Log" +:+ endl)
    ∧ (∀ q, q ≠ Trace2_txt → files w' !! q = files w !! q)
    ∧ same_but_files w w'.
Proof.
  intros Hd. unfold UnitTest_MemTrace_FileDifferent.
  destruct (ctor_opens Trace2_txt true (Some error0) MemTrace.DefaultTrace w
              (proj2 Trace_txt_not_empty) Hd) as (w1 & -> & Hf & Hq & Hs).
  cbn [store]. rewrite decide_True by done.
  unfold MemTrace.LogMessage, MemTrace.call_traceFunc, MemTrace.PrintMessage,
    fstream_write_line, is_open.
  cbn. rewrite Hf. cbn. rewrite decide_True by done.
  eexists. split; [reflexivity|]. cbn. rewrite lookup_insert_eq.
  split; [done|]. split.
  - intros q Hq'. rewrite lookup_insert_ne by done. by apply Hq.
  - eapply same_but_files_trans; [exact Hs|]. by repeat split.
Qed.

Lemma UnitTest_MemTrace_FileDifferent_passes_witness :
  ∃ w',
    UnitTest_MemTrace_FileDifferent MEMERR_UNKNOWN world_files = Passed w'
    ∧ files w' !! Trace2_txt = Some ("Test Default Trace Log" +:+ endl)
    ∧ files w' !! trace_path = Some ("old" +:+ endl).
Proof.
  destruct (UnitTest_MemTrace_FileDifferent_passes MEMERR_UNKNOWN world_files)
    as (w' & Hp & Hf & Hq & _).
  - vm_compute. intros H. discriminate H.
  - exists w'. split; [exact Hp|]. split; [exact Hf|].
    rewrite Hq; [reflexivity|discriminate].
Defined.

(** ** The event sink, further *)

(** One event through the default callback: the counters move as
    [count_event] says and the message goes to the trace log, whose result
    is dropped. *)
Lemma CallbackFunc_eq (msg : MEMCALL) (n : Z) (tr : option MemTrace.t) (w : World) :
  MemCallback.CallbackFunc msg n tr w
  = match tr with
    | Some t =>
        '(_, w2) ← MemTrace.LogMessage t (event_text msg +:+ to_string n)
                     (count_event msg n w);
        Some (MEMERR_NO_ERR, w2)
    | None => Some (MEMERR_NO_ERR, count_event msg n w)
    end.
Proof. by destruct msg, tr. Qed.

Lemma PerformCallback_default (c : MemCallback.t) (msg : MEMCALL) (n : Z) (w : World) :
  MemCallback.callbackInit c = true →
  MemCallback.callback c = Some MemCallback.DefaultCallback →
  trace_callable c →
  ∃ w',
    MemCallback.PerformCallback c msg n w = Some (MEMERR_NO_ERR, w')
    ∧ (allocs w', deallocs w', memInUse w')
      = (allocs (count_event msg n w), deallocs (count_event msg n w),
         memInUse (count_event msg n w)).
Proof.
  intros Hi Hc Ht. unfold MemCallback.PerformCallback, MemCallback.call_callback.
  rewrite Hi, Hc, CallbackFunc_eq.
  destruct (MemCallback.traceClass c) as [tr|] eqn:Htr; [|by eexists].
  destruct (LogMessage_defined tr (event_text msg +:+ to_string n)
              (count_event msg n w) (Ht tr Htr)) as [[e1 w1] HL].
  rewrite HL. cbn. eexists. split; [reflexivity|].
  by apply LogMessage_objects in HL as (_ & _ & ->).
Qed.

Lemma wrap32_add_l (a b : Z) : wrap32 (wrap32 a + b) = wrap32 (a + b).
Proof. unfold wrap32. by rewrite Z.add_mod_idemp_l. Qed.

Lemma wrap64_add_sub_l (a b c : Z) :
  wrap64 (wrap64 a + b - c) = wrap64 (a + b - c).
Proof.
  unfold wrap64. by rewrite <- !Z.add_sub_assoc, Z.add_mod_idemp_l.
Qed.

Lemma count_event_in_range (msg : MEMCALL) (n : Z) (w : World) :
  counters_in_range w → counters_in_range (count_event msg n w).
Proof.
  unfold counters_in_range, wrap32, wrap64.
  intros (Ha & Hd & Hm).
  destruct msg; cbn; repeat split; try lia;
    apply Z.mod_pos_bound; lia.
Qed.

(** X11: the counters after any list of events through a sink with the
    default callback.  Every dispatch is defined; the allocation count has
    grown by the number of allocate events, the deallocation count by the
    number of deallocate events, and the bytes in use by the sizes allocated
    less the sizes deallocated, each with the wrap-around of its type. *)
Theorem counters_after_events (c : MemCallback.t) (events : list (MEMCALL * Z)) :
  MemCallback.callbackInit c = true →
  MemCallback.callback c = Some MemCallback.DefaultCallback →
  trace_callable c →
  ∀ w, counters_in_range w →
    ∃ w',
      dispatch_all c events w = Some w'
      ∧ allocs w' = wrap32 (allocs w + count_kind MEMCALL_ALLOC events)
      ∧ deallocs w' = wrap32 (deallocs w + count_kind MEMCALL_DEALLOC events)
      ∧ memInUse w'
        = wrap64 (memInUse w + total_size MEMCALL_ALLOC events
                  - total_size MEMCALL_DEALLOC events).
Proof.
  intros Hi Hc Ht. induction events as [|[msg n] rest IH]; intros w Hr.
  - exists w. cbn. destruct Hr as (Ha & Hd & Hm).
    unfold wrap32, wrap64. rewrite !Z.add_0_r, Z.sub_0_r.
    by rewrite !Z.mod_small.
  - cbn [dispatch_all].
    destruct (PerformCallback_default c msg n w Hi Hc Ht) as (w1 & -> & Hcnt).
    cbn [mbind option_bind].
    assert (counters_in_range w1) as Hr1.
    { pose proof (count_event_in_range msg n w Hr) as Hr'.
      unfold counters_in_range in *. injection Hcnt as -> -> ->. exact Hr'. }
    destruct (IH w1 Hr1) as (w' & -> & Ha & Hd & Hm).
    exists w'. split; [done|].
    injection Hcnt as Ha1 Hd1 Hm1.
    rewrite Ha, Hd, Hm, Ha1, Hd1, Hm1. cbn [count_kind total_size].
    destruct msg; cbn [count_event allocs deallocs memInUse set_counters];
      repeat case_decide; try done;
      rewrite ?wrap32_add_l, ?wrap64_add_sub_l;
      repeat split; f_equal; lia.
Qed.

Lemma counters_after_events_witness :
  ∃ w',
    dispatch_all sink_console
      [(MEMCALL_ALLOC, 40); (MEMCALL_ALLOC, 40); (MEMCALL_MEM_ERR, 7);
       (MEMCALL_DEALLOC, 40)] world0 = Some w'
    ∧ allocs w' = 2 ∧ deallocs w' = 1 ∧ memInUse w' = 40.
Proof.
  destruct (counters_after_events sink_console
              [(MEMCALL_ALLOC, 40); (MEMCALL_ALLOC, 40); (MEMCALL_MEM_ERR, 7);
               (MEMCALL_DEALLOC, 40)] eq_refl eq_refl) with (w := world0)
    as (w' & Hrun & Ha & Hd & Hm).
  - intros tr [= <-]. by eexists.
  - unfold counters_in_range. cbn. lia.
  - exists w'. split; [exact Hrun|]. rewrite Ha, Hd, Hm. by vm_compute.
Defined.

(** X12: the default callback drops the result of the trace log.  Through
    a sink whose trace log has logging disabled, an event still returns
    [MEMERR_NO_ERR] and is still counted, while the log returned
    [MEMERR_UNINITALIZED] for the message and wrote nothing. *)
Theorem default_callback_drops_log_result (c : MemCallback.t) (tr : MemTrace.t)
    (msg : MEMCALL) (n : Z) (w : World) :
  MemCallback.callbackInit c = true →
  MemCallback.callback c = Some MemCallback.DefaultCallback →
  MemCallback.traceClass c = Some tr →
  MemTrace.traceLog tr = false →
  MemCallback.PerformCallback c msg n w
  = Some (MEMERR_NO_ERR, count_event msg n w)
  ∧ MemTrace.LogMessage tr (event_text msg +:+ to_string n) (count_event msg n w)
    = Some (MEMERR_UNINITALIZED, count_event msg n w).
Proof.
  intros Hi Hc Ht Hl.
  unfold MemCallback.PerformCallback, MemCallback.call_callback.
  rewrite Hi, Hc, CallbackFunc_eq, Ht.
  unfold MemTrace.LogMessage. by rewrite Hl.
Qed.

Lemma default_callback_drops_log_result_witness :
  MemCallback.PerformCallback sink_muted MEMCALL_ALLOC 40 world0
  = Some (MEMERR_NO_ERR, set_counters 1 0 40 world0).
Proof.
  destruct (default_callback_drops_log_result sink_muted
              (MemTrace.ctor missing_path false None
                 (Some MemTrace.DefaultTrace) world_files).1.1
              MEMCALL_ALLOC 40 world0 eq_refl eq_refl eq_refl eq_refl)
    as [Hp _].
  rewrite Hp. reflexivity.
Defined.

(** X13: a sink constructed without a callback.  The constructor reports
    [MEMERR_INVALID_FUNCTION_PARAMETER] and leaves [callbackInit]
    unassigned.  If the storage held false there, every [PerformCallback]
    returns [MEMERR_UNINITALIZED] and changes nothing; if it held true,
    [PerformCallback] calls the null pointer. *)
Theorem sink_without_callback (raw : bool) (tr : option MemTrace.t)
    (e0 : MEMERR) (msg : MEMCALL) (n : Z) (w : World) :
  let c := (MemCallback.ctor raw tr None (Some e0)).1 in
  (MemCallback.ctor raw tr None (Some e0)).2
  = Some MEMERR_INVALID_FUNCTION_PARAMETER
  ∧ MemCallback.GetMemCallback c = None
  ∧ MemCallback.PerformCallback c msg n w
    = if raw then None else Some (MEMERR_UNINITALIZED, w).
Proof. by destruct raw. Qed.

(** X14: the line an event leaves on the console.  Through a sink with the
    default callback and a trace log without a file, an event of any kind
    returns [MEMERR_NO_ERR], is counted, and appends to the console one
    line: the words for its kind followed by the size in decimal. *)
Theorem event_console_line (c : MemCallback.t) (tr : MemTrace.t)
    (msg : MEMCALL) (n : Z) (w : World) :
  MemCallback.callbackInit c = true →
  MemCallback.callback c = Some MemCallback.DefaultCallback →
  MemCallback.traceClass c = Some tr →
  MemTrace.traceLog tr = true →
  MemTrace.traceFunc tr = Some MemTrace.DefaultTrace →
  is_open (MemTrace.traceFile tr) = false →
  MemCallback.PerformCallback c msg n w
  = Some (MEMERR_NO_ERR,
          set_console (console w +:+ event_text msg +:+ to_string n +:+ endl)
            (count_event msg n w)).
Proof.
  intros Hi Hc Ht Hl Hf Ho.
  unfold MemCallback.PerformCallback, MemCallback.call_callback.
  rewrite Hi, Hc, CallbackFunc_eq, Ht.
  unfold MemTrace.LogMessage, MemTrace.call_traceFunc, MemTrace.PrintMessage.
  rewrite Hl, Hf, Ho. cbn. do 2 f_equal.
  unfold set_console. destruct msg; cbn; by rewrite ?append_assoc.
Qed.

Lemma event_console_line_witness :
  MemCallback.PerformCallback sink_console MEMCALL_DEALLOC 1024 world0
  = Some (MEMERR_NO_ERR,
          set_console ("Deallocating Memory of size: 1024" +:+ endl)
            (set_counters 0 1 (2 ^ 64 - 1024) world0)).
Proof.
  rewrite (event_console_line sink_console console_trace MEMCALL_DEALLOC 1024
             world0 eq_refl eq_refl eq_refl eq_refl eq_refl eq_refl).
  reflexivity.
Defined.

(** ** Initialisation of the arena *)

Lemma InitalizeHeapMem_succeeds_aux (ps np al : Z) (cb : option MemCallback.t)
    (raw : MemHeap.t) (w : World) :
  0 ≤ MemHeap.numOfPages raw < MemHeap.maxPages raw →
  MemHeap.maxPages raw < 2 ^ 64 →
  ∃ h,
    MemHeap.InitalizeHeapMem ps np al cb Returns Returns (MemHeap.ctor raw) w
    = Some (MEMERR_NO_ERR, h, set_next_page (S (next_page w)) w)
    ∧ MemHeap.heapInitalized h = true
    ∧ MemHeap.memFlags h = 0
    ∧ MemHeap.callback h = cb
    ∧ MemHeap.allignment h = al
    ∧ MemHeap.pageSize h = 0
    ∧ MemHeap.maxPages h = np
    ∧ MemHeap.maxPageSize h = ps
    ∧ MemHeap.numOfPages h = MemHeap.numOfPages raw + 1
    ∧ MemHeap.table_len (MemHeap.pages h) = MemHeap.numOfPages raw
    ∧ current_page h
      = Some {| page_id := next_page w; page_cap := MemHeap.maxPageSize raw |}
    ∧ MemHeap.currentPage h = current_page h.
Proof.
  intros Hr Hm.
  unfold MemHeap.InitalizeHeapMem, MemHeap.AllocatePagePtrs, MemHeap.AllocatePage.
  cbn [mbind option_bind]. rewrite decide_False by not_ne.
  cbn [MemHeap.numOfPages MemHeap.maxPages MemHeap.set_numOfPages
       MemHeap.set_pages MemHeap.ctor].
  rewrite (wrap64_small (MemHeap.numOfPages raw + 1)) by lia.
  destruct (Z.gtb_spec (MemHeap.numOfPages raw + 1) (MemHeap.maxPages raw)); [lia|].
  cbn [mbind option_bind]. rewrite decide_False by not_ne.
  eexists. split; [reflexivity|].
  unfold current_page, MemHeap.page_at. cbn.
  repeat split; try done.
  - by destruct cb.
  - apply lookup_insert_eq.
Qed.

(** X15: what a successful [InitalizeHeapMem] leaves.  On a constructed
    arena whose storage holds a page count below its page limit, and when
    both [new] expressions return, the call returns [MEMERR_NO_ERR]; the
    arena is initialised with the settings given, offset zero and the sink
    given; the page count is the stored one plus one; the table was
    allocated with the stored count of cells, one short of the cell that is
    written; and the first page has the capacity the storage held in
    [maxPageSize], not the page size given. *)
Theorem InitalizeHeapMem_succeeds (ps np al : Z) (cb : option MemCallback.t)
    (raw : MemHeap.t) (w : World) :
  0 ≤ MemHeap.numOfPages raw < MemHeap.maxPages raw →
  MemHeap.maxPages raw < 2 ^ 64 →
  ∃ h,
    MemHeap.InitalizeHeapMem ps np al cb Returns Returns (MemHeap.ctor raw) w
    = Some (MEMERR_NO_ERR, h, set_next_page (S (next_page w)) w)
    ∧ MemHeap.heapInitalized h = true
    ∧ MemHeap.memFlags h = 0
    ∧ MemHeap.callback h = cb
    ∧ MemHeap.allignment h = al
    ∧ MemHeap.pageSize h = 0
    ∧ MemHeap.maxPages h = np
    ∧ MemHeap.maxPageSize h = ps
    ∧ MemHeap.numOfPages h = MemHeap.numOfPages raw + 1
    ∧ MemHeap.table_len (MemHeap.pages h) = MemHeap.numOfPages raw
    ∧ current_page h
      = Some {| page_id := next_page w; page_cap := MemHeap.maxPageSize raw |}
    ∧ MemHeap.currentPage h = current_page h.
Proof.
  intros Hr Hm.
  unfold MemHeap.InitalizeHeapMem, MemHeap.AllocatePagePtrs, MemHeap.AllocatePage.
  cbn [mbind option_bind]. rewrite decide_False by not_ne.
  cbn [MemHeap.numOfPages MemHeap.maxPages MemHeap.set_numOfPages
       MemHeap.set_pages MemHeap.ctor].
  rewrite (wrap64_small (MemHeap.numOfPages raw + 1)) by lia.
  destruct (Z.gtb_spec (MemHeap.numOfPages raw + 1) (MemHeap.maxPages raw)); [lia|].
  cbn [mbind option_bind]. rewrite decide_False by not_ne.
  eexists. split; [reflexivity|].
  unfold current_page, MemHeap.page_at. cbn.
  repeat split; try done.
  - by destruct cb.
  - apply lookup_insert_eq.
Qed.

Lemma InitalizeHeapMem_succeeds_witness :
  ∃ h,
    MemHeap.InitalizeHeapMem 64 3 8 None Returns Returns fresh_arena world0
    = Some (MEMERR_NO_ERR, h, world1)
    ∧ MemHeap.numOfPages h = 1
    ∧ current_page h = Some page0.
Proof.
  destruct (InitalizeHeapMem_succeeds 64 3 8 None raw_storage world0)
    as (h & Hi & _ & _ & _ & _ & _ & _ & _ & Hn & _ & Hc & _).
  - cbn. lia.
  - cbn. lia.
  - exists h. split; [exact Hi|]. split; [exact Hn|exact Hc].
Defined.

(** A page request on an arena that holds at least [maxPages] pages fails
    and changes nothing. *)
Lemma AllocatePage_over_budget (o : Outcome) (h : MemHeap.t) (w : World) :
  0 ≤ MemHeap.maxPages h ≤ MemHeap.numOfPages h →
  MemHeap.numOfPages h + 1 < 2 ^ 64 →
  MemHeap.AllocatePage o h w = Some (MEMERR_OUT_OF_MEM, h, w).
Proof.
  intros Hr Hlt. unfold MemHeap.AllocatePage.
  cbn [MemHeap.numOfPages MemHeap.maxPages MemHeap.set_numOfPages].
  rewrite (wrap64_small (MemHeap.numOfPages h + 1)) by lia.
  destruct (Z.gtb_spec (MemHeap.numOfPages h + 1) (MemHeap.maxPages h)) as [_|]; [|lia].
  replace (MemHeap.numOfPages h + 1 - 1) with (MemHeap.numOfPages h) by lia.
  rewrite wrap64_small by lia. by destruct h.
Qed.

(** X16: initialising again.  The page count is never reset, and the page
    budget checked is the one of the previous initialisation.  After a
    successful initialisation and [TerminateHeapMem], a second
    [InitalizeHeapMem] fails with [MEMERR_OUT_OF_MEM], leaving the arena
    uninitialised, when the first budget is used up; below the budget it
    succeeds with one page more counted, offset zero, and a new table in
    which the cell of the first page is unassigned. *)
Theorem InitalizeHeapMem_again (ps np al : Z) (cb : option MemCallback.t)
    (raw h1 : MemHeap.t) (w w1 : World) :
  MemHeap.InitalizeHeapMem ps np al cb Returns Returns (MemHeap.ctor raw) w
  = Some (MEMERR_NO_ERR, h1, w1) →
  0 ≤ MemHeap.numOfPages raw < MemHeap.maxPages raw →
  MemHeap.maxPages raw < 2 ^ 64 - 1 →
  ∀ ps' np' al' cb' o,
    (0 ≤ np ≤ MemHeap.numOfPages raw + 1 →
     ∃ h2,
       MemHeap.InitalizeHeapMem ps' np' al' cb' Returns o
         (MemHeap.TerminateHeapMem h1).2 w1
       = Some (MEMERR_OUT_OF_MEM, h2, w1)
       ∧ MemHeap.heapInitalized h2 = false)
    ∧ (MemHeap.numOfPages raw + 1 < np < 2 ^ 64 →
       ∃ h2 w2,
         MemHeap.InitalizeHeapMem ps' np' al' cb' Returns Returns
           (MemHeap.TerminateHeapMem h1).2 w1
         = Some (MEMERR_NO_ERR, h2, w2)
         ∧ MemHeap.numOfPages h2 = MemHeap.numOfPages raw + 2
         ∧ MemHeap.pageSize h2 = 0
         ∧ MemHeap.page_at h2 (MemHeap.numOfPages raw) = None
         ∧ current_page h2
           = Some {| page_id := next_page w1; page_cap := ps |}).
Proof.
  intros Hinit Hr Hm ps' np' al' cb' o.
  destruct (InitalizeHeapMem_succeeds_aux ps np al cb raw w)
    as (h & Hi & _ & _ & _ & _ & _ & Hmax & Hps & Hn & _); [lia|lia|].
  rewrite Hinit in Hi. injection Hi as -> ->.
  split.
  - intros Hnp.
    unfold MemHeap.InitalizeHeapMem, MemHeap.AllocatePagePtrs.
    cbn [mbind option_bind]. rewrite decide_False by not_ne.
    rewrite AllocatePage_over_budget; cbn; rewrite ?Hmax, ?Hn; [|lia|lia].
    cbn [mbind option_bind]. rewrite decide_True by done.
    eexists. split; reflexivity.
  - intros Hnp.
    unfold MemHeap.InitalizeHeapMem, MemHeap.AllocatePagePtrs, MemHeap.AllocatePage.
    cbn [mbind option_bind]. rewrite decide_False by not_ne.
    cbn [MemHeap.numOfPages MemHeap.maxPages MemHeap.set_numOfPages
         MemHeap.set_pages MemHeap.TerminateHeapMem snd].
    rewrite Hn, Hmax.
    rewrite (wrap64_small (MemHeap.numOfPages raw + 1 + 1)) by lia.
    destruct (Z.gtb_spec (MemHeap.numOfPages raw + 1 + 1) np); [lia|].
    cbn [mbind option_bind]. rewrite decide_False by not_ne.
    eexists _, _. split; [reflexivity|].
    unfold current_page, MemHeap.page_at. cbn. rewrite Hps.
    replace (MemHeap.numOfPages raw + 1 + 1 - 1)
      with (MemHeap.numOfPages raw + 1) by lia.
    rewrite (wrap64_small (MemHeap.numOfPages raw + 1)) by lia.
    repeat split.
    + lia.
    + rewrite lookup_insert_ne by lia. done.
    + apply lookup_insert_eq.
Qed.

Lemma InitalizeHeapMem_again_witness :
  ∃ h1 h2,
    MemHeap.InitalizeHeapMem 64 1 8 None Returns Returns fresh_arena world0
    = Some (MEMERR_NO_ERR, h1, world1)
    ∧ MemHeap.InitalizeHeapMem 64 1 8 None Returns Returns
        (MemHeap.TerminateHeapMem h1).2 world1
      = Some (MEMERR_OUT_OF_MEM, h2, world1)
    ∧ MemHeap.heapInitalized h2 = false.
Proof.
  eexists. 
  assert (MemHeap.InitalizeHeapMem 64 1 8 None Returns Returns fresh_arena world0
          = Some (MEMERR_NO_ERR,
                  {| MemHeap.heapInitalized := true; MemHeap.memFlags := 0;
                     MemHeap.callback := None; MemHeap.allignment := 8;
                     MemHeap.pageSize := 0; MemHeap.numOfPages := 1;
                     MemHeap.maxPages := 1; MemHeap.maxPageSize := 64;
                     MemHeap.currentPage := Some page0;
                     MemHeap.pages := {| MemHeap.table_len := 0;
                                         MemHeap.cells := {[ 0 := page0 ]} |} |},
                  world1)) as Hinit by reflexivity.
  destruct (InitalizeHeapMem_again 64 1 8 None raw_storage _ world0 world1 Hinit)
    with (ps' := 64) (np' := 1) (al' := 8) (cb' := @None MemCallback.t)
         (o := Returns) as [Hfail _].
  - cbn. lia.
  - cbn. lia.
  - destruct Hfail as (h2 & Hrun & Hoff); [cbn; lia|].
    exists h2. split; [exact Hinit|]. split; [exact Hrun|exact Hoff].
Defined.

(** ** Failures of [new] *)

(** X17: how failures of [new] are translated during initialisation, on an
    arena without a sink.  When the table cannot be allocated the call
    returns [MEMERR_OUT_OF_MEM] and nothing has changed.  When the page
    cannot be allocated it returns [MEMERR_OUT_OF_MEM], or [MEMERR_UNKNOWN]
    for another exception, with the page count as it was and the arena not
    initialised.  When the allocation of the table throws another exception
    than [std::bad_alloc], the call carries on: with a page it returns
    [MEMERR_NO_ERR] and the arena is initialised on the table it had
    before. *)
Theorem InitalizeHeapMem_failures (ps np al : Z) (cb : option MemCallback.t)
    (h : MemHeap.t) (w : World) :
  MemHeap.callback h = None →
  0 ≤ MemHeap.numOfPages h < MemHeap.maxPages h →
  MemHeap.maxPages h < 2 ^ 64 →
  (∀ o, MemHeap.InitalizeHeapMem ps np al cb ThrowsBadAlloc o h w
        = Some (MEMERR_OUT_OF_MEM, h, w))
  ∧ (∃ h', MemHeap.InitalizeHeapMem ps np al cb Returns ThrowsBadAlloc h w
           = Some (MEMERR_OUT_OF_MEM, h', w)
           ∧ MemHeap.numOfPages h' = MemHeap.numOfPages h
           ∧ MemHeap.heapInitalized h' = MemHeap.heapInitalized h)
  ∧ (∃ h', MemHeap.InitalizeHeapMem ps np al cb Returns ThrowsException h w
           = Some (MEMERR_UNKNOWN, h', w)
           ∧ MemHeap.numOfPages h' = MemHeap.numOfPages h
           ∧ MemHeap.heapInitalized h' = MemHeap.heapInitalized h)
  ∧ (∃ h' w', MemHeap.InitalizeHeapMem ps np al cb ThrowsException Returns h w
              = Some (MEMERR_NO_ERR, h', w')
              ∧ MemHeap.heapInitalized h' = true
              ∧ MemHeap.table_len (MemHeap.pages h')
                = MemHeap.table_len (MemHeap.pages h)
              ∧ ∀ i, i ≠ MemHeap.numOfPages h →
                     MemHeap.page_at h' i = MemHeap.page_at h i).
Proof.
  intros Hcb Hr Hm.
  assert (∀ o tbl,
    MemHeap.AllocatePage o (MemHeap.set_pages tbl h) w
    = match o with
      | Returns =>
          Some (MEMERR_NO_ERR,
                MemHeap.set_pages
                  {| MemHeap.table_len := MemHeap.table_len tbl;
                     MemHeap.cells :=
                       <[MemHeap.numOfPages h :=
                           {| page_id := next_page w;
                              page_cap := MemHeap.maxPageSize h |}]>
                         (MemHeap.cells tbl) |}
                  (MemHeap.set_numOfPages (MemHeap.numOfPages h + 1) h),
                set_next_page (S (next_page w)) w)
      | ThrowsBadAlloc =>
          Some (MEMERR_OUT_OF_MEM,
                MemHeap.set_numOfPages (MemHeap.numOfPages h)
                  (MemHeap.set_numOfPages (MemHeap.numOfPages h + 1)
                     (MemHeap.set_pages tbl h)), w)
      | ThrowsException =>
          Some (MEMERR_UNKNOWN,
                MemHeap.set_numOfPages (MemHeap.numOfPages h)
                  (MemHeap.set_numOfPages (MemHeap.numOfPages h + 1)
                     (MemHeap.set_pages tbl h)), w)
      end) as Hpage.
  { intros o tbl. unfold MemHeap.AllocatePage, MemHeap.report_mem_err. cbn.
    rewrite (wrap64_small (MemHeap.numOfPages h + 1)) by lia.
    destruct (Z.gtb_spec (MemHeap.numOfPages h + 1) (MemHeap.maxPages h)); [lia|].
    replace (MemHeap.numOfPages h + 1 - 1) with (MemHeap.numOfPages h) by lia.
    rewrite (wrap64_small (MemHeap.numOfPages h)) by lia.
    rewrite Hcb. by destruct o. }
  assert (MemHeap.set_pages (MemHeap.pages h) h = h) as Hsame by by destruct h.
  unfold MemHeap.InitalizeHeapMem, MemHeap.AllocatePagePtrs, MemHeap.report_mem_err.
  rewrite Hcb. cbn [mbind option_bind].
  split; [|split; [|split]].
  - intros o. by case_decide.
  - rewrite decide_False by not_ne. rewrite Hpage. cbn [mbind option_bind].
    rewrite decide_True by done. by eexists.
  - rewrite decide_False by not_ne. rewrite Hpage. cbn [mbind option_bind].
    rewrite decide_True by done. by eexists.
  - rewrite decide_False by not_ne. cbn [mbind option_bind].
    rewrite decide_False by not_ne.
    pose proof (Hpage Returns (MemHeap.pages h)) as Hp'.
    rewrite Hsame in Hp'. rewrite Hp'.
    cbn [mbind option_bind]. rewrite decide_False by not_ne.
    eexists _, _. split; [reflexivity|]. cbn.
    split; [done|]. split; [done|].
    intros i Hi. unfold MemHeap.page_at. cbn. by rewrite lookup_insert_ne.
Qed.

Lemma InitalizeHeapMem_failures_witness :
  MemHeap.InitalizeHeapMem 64 3 8 None ThrowsBadAlloc Returns fresh_arena world0
  = Some (MEMERR_OUT_OF_MEM, fresh_arena, world0).
Proof.
  destruct (InitalizeHeapMem_failures 64 3 8 None fresh_arena world0)
    as [Htable _].
  - reflexivity.
  - cbn. lia.
  - cbn. lia.
  - apply Htable.
Defined.

(** X18: a page that is counted and never stored.  When [new] throws in
    [AllocatePage] and the sink returns an error for the report (made with
    the size of a [size_t], not of the page), that error is returned and the
    page count stays incremented, although no cell of the table was
    written. *)
Theorem AllocatePage_counts_unstored_page (o : Outcome) (h : MemHeap.t)
    (w : World) (c : MemCallback.t) (e : MEMERR) (w1 : World) :
  o ≠ Returns →
  0 ≤ MemHeap.numOfPages h < MemHeap.maxPages h →
  MemHeap.maxPages h < 2 ^ 64 →
  MemHeap.callback h = Some c →
  MemCallback.PerformCallback c MEMCALL_MEM_ERR 8 w = Some (e, w1) →
  e ≠ MEMERR_NO_ERR →
  ∃ h',
    MemHeap.AllocatePage o h w = Some (e, h', w1)
    ∧ MemHeap.numOfPages h' = MemHeap.numOfPages h + 1
    ∧ MemHeap.pages h' = MemHeap.pages h.
Proof.
  intros Ho Hr Hm Hcb Hp He.
  unfold MemHeap.AllocatePage, MemHeap.report_mem_err.
  cbn [MemHeap.numOfPages MemHeap.maxPages MemHeap.set_numOfPages MemHeap.callback].
  rewrite (wrap64_small (MemHeap.numOfPages h + 1)) by lia.
  destruct (Z.gtb_spec (MemHeap.numOfPages h + 1) (MemHeap.maxPages h)); [lia|].
  rewrite Hcb. change MemHeap.sizeof_size_t with 8. rewrite Hp.
  cbn [mbind option_bind].
  destruct o; [by destruct Ho| |]; rewrite decide_True by done;
    (eexists; split; [reflexivity|done]).
Qed.

Lemma AllocatePage_counts_unstored_page_witness :
  ∃ h',
    MemHeap.AllocatePage ThrowsBadAlloc (arena 0 (Some sink_failing)) world1
    = Some (MEMERR_CORRUPT_MEM, h', world1)
    ∧ MemHeap.numOfPages h' = 2
    ∧ MemHeap.page_at h' 1 = None.
Proof.
  destruct (AllocatePage_counts_unstored_page ThrowsBadAlloc
              (arena 0 (Some sink_failing)) world1 sink_failing
              MEMERR_CORRUPT_MEM world1) as (h' & Hrun & Hn & Hpg).
  - discriminate.
  - cbn. lia.
  - cbn. lia.
  - reflexivity.
  - reflexivity.
  - discriminate.
  - exists h'. split; [exact Hrun|]. split; [exact Hn|].
    unfold MemHeap.page_at. rewrite Hpg. reflexivity.
Defined.

(** ** Flags, offsets and live objects *)

(** X19: the flags of a reachable arena are zero.  The constructor clears
    [memFlags] and no call sets it, so through the public interface the
    double-allocation check cannot be overridden nor the debug messages
    disabled: on a reachable arena every [Allocate] into a slot in use that
    returns, returns [MEMERR_DOUBLE_ALLOC] and leaves the slot as it was. *)
Theorem reachable_memFlags (h : MemHeap.t) (w : World) :
  reachable h w →
  MemHeap.memFlags h = 0
  ∧ ∀ sizeofT c o p e p' h' w',
      MemHeap.Allocate sizeofT c o (Some p) h w = Some (e, p', h', w') →
      e = MEMERR_DOUBLE_ALLOC ∧ p' = Some p.
Proof.
  intros Hr.
  assert (MemHeap.memFlags h = 0) as Hz.
  { induction Hr as [raw w|o h w e p h' w' Hr IH Hs]; [done|].
    apply step_memFlags in Hs. congruence. }
  split; [exact Hz|].
  intros sizeofT c o p e p' h' w'. rewrite Allocate_eq.
  destruct (_ =? 0); [done|]. cbn zeta.
  destruct (page_request _ o h w) as [[h1 w1]|] eqn:Hp; [|done].
  apply page_request_frame in Hp as [(_ & Hf & _) _].
  cbn. unfold guard, MemHeap.has_flag. rewrite Hf, Hz. cbn.
  by intros [= <- <- <- <-].
Qed.

Lemma reachable_memFlags_witness :
  MemHeap.memFlags (arena 0 None) = 0
  ∧ MemHeap.Allocate 40 Returns Returns (Some (obj_at obj0)) (arena 0 None) world1
    = Some (MEMERR_DOUBLE_ALLOC, Some (obj_at obj0), arena 0 None, world1).
Proof.
  assert (reachable (arena 0 None) world1) as Hr.
  { apply (run_reachable [init_64_3_8] raw_storage world0 [(MEMERR_NO_ERR, None)]).
    reflexivity. }
  destruct (reachable_memFlags (arena 0 None) world1 Hr) as [Hz _].
  split; [exact Hz|reflexivity].
Defined.

Lemma objPageSize_nonneg (s al : Z) : 0 ≤ MemHeap.objPageSize s al.
Proof. unfold MemHeap.objPageSize, wrap64. apply Z.mod_pos_bound. lia. Qed.

Lemma reserve_total_nonneg (al : Z) (ops : list op) : 0 ≤ reserve_total al ops.
Proof.
  induction ops as [|o ops IH]; [done|].
  destruct o; cbn; try done.
  pose proof (objPageSize_nonneg sizeofT al). lia.
Qed.

Lemma stacked_mono (top top' : Z) (l : list Obj) :
  top ≤ top' → stacked top l → stacked top' l.
Proof. destruct l as [|o l]; [done|]. cbn. intros ? (? & ? & ?). auto with lia. Qed.

Lemma stacked_filter (P : Obj → Prop) `{∀ o, Decision (P o)} (l : list Obj) :
  ∀ top, stacked top l → stacked top (filter P l).
Proof.
  induction l as [|o l IH]; intros top; [done|].
  cbn [stacked]. intros (Hres & Hend & Hrest).
  rewrite filter_cons. destruct (decide (P o)).
  - cbn. auto.
  - apply (stacked_mono (ptr_off (obj_at o))); [lia|auto].
Qed.

Lemma stacked_below (l : list Obj) :
  ∀ top o, stacked top l → o ∈ l →
    ptr_off (obj_at o) + obj_reserved o ≤ top ∧ 0 ≤ obj_reserved o.
Proof.
  induction l as [|x l IH]; intros top o Hst Ho.
  - by apply elem_of_nil in Ho.
  - cbn in Hst. destruct Hst as (Hres & Hend & Hrest).
    apply elem_of_cons in Ho as [->|Ho]; [done|].
    destruct (IH _ o Hrest Ho). split; [lia|done].
Qed.

Lemma stacked_disjoint (l : list Obj) :
  ∀ top i j o1 o2, stacked top l → (i < j)%nat →
    l !! i = Some o1 → l !! j = Some o2 →
    ptr_off (obj_at o2) + obj_reserved o2 ≤ ptr_off (obj_at o1).
Proof.
  induction l as [|x l IH]; intros top i j o1 o2 Hst Hij Hi Hj; [done|].
  cbn in Hst. destruct Hst as (Hres & Hend & Hrest).
  destruct j as [|j]; [lia|]. cbn in Hj.
  destruct i as [|i].
  - injection Hi as <-.
    apply (stacked_below l _ o2 Hrest). by eapply list_elem_of_lookup_2.
  - cbn in Hi. eapply (IH _ i j); eauto with lia.
Qed.

(** One call that is not an initialisation keeps the objects stacked below
    the offset, as long as the offset does not wrap around. *)
Lemma step_stacked (o : op) (h : MemHeap.t) (w : World) e p h' w' :
  is_Initialize o = false →
  0 ≤ MemHeap.pageSize h →
  MemHeap.pageSize h + reserve_total (MemHeap.allignment h) [o] < 2 ^ 64 →
  stacked (MemHeap.pageSize h) (objects w) →
  step o h w = Some (e, p, h', w') →
  MemHeap.allignment h' = MemHeap.allignment h
  ∧ MemHeap.pageSize h ≤ MemHeap.pageSize h'
  ∧ MemHeap.pageSize h'
    ≤ MemHeap.pageSize h + reserve_total (MemHeap.allignment h) [o]
  ∧ stacked (MemHeap.pageSize h') (objects w').
Proof.
  intros Hno H0 Hlt Hst.
  destruct o as [ps np al cb o1 o2| |s c o2 slot|s slot]; [done| | |];
    cbn [step reserve_total] in *.
  - intros [= <- <- <- <-]. cbn. repeat split; [lia..|done].
  - pose proof (objPageSize_nonneg s (MemHeap.allignment h)) as Hsz.
    rewrite Allocate_eq. destruct (_ =? 0); [done|]. cbn zeta.
    destruct (page_request _ o2 h w) as [[h1 w1]|] eqn:Hp; [|done].
    apply page_request_frame in Hp as [(_ & _ & _ & Hal & Hps & _) Hob].
    cbn. destruct (guard slot h1).
    { intros [= <- <- <- <-]. rewrite Hal, Hps, Hob.
      repeat split; [lia..|done]. }
    intros Hc. apply construct_effect in Hc
      as (_ & Hal' & [(_ & _ & Hps' & Hob')|(_ & _ & Hps' & Hob')]).
    + rewrite Hal', Hal, Hps', Hps, Hob', Hob. repeat split; [lia..|done].
    + rewrite Hal', Hal, Hps', Hps, Hob', Hob.
      rewrite (wrap64_small (MemHeap.pageSize h
                             + MemHeap.objPageSize s (MemHeap.allignment h)))
        by lia.
      split; [done|]. split; [lia|]. split; [lia|].
      cbn. rewrite Hps. split; [lia|]. split; [lia|done].
  - unfold MemHeap.Deallocate.
    destruct slot as [q|]; destruct (MemHeap.callback h) as [cc|];
      try destruct (negb _);
      try (destruct (MemCallback.PerformCallback _ _ _ _) as [[e1 w1]|] eqn:Hpc;
             [apply PerformCallback_objects in Hpc as [Hpc _]|done]);
      cbn [mbind option_bind];
      try (destruct (MemHeap.delete_expr q _) as [w2|] eqn:Hdel;
             [apply delete_expr_Some in Hdel as (pg & _ & _ & _ & ->)|done]);
      cbn [mbind option_bind]; try case_decide; intros [= <- <- <- <-];
      (split; [done|]); (split; [lia|]); (split; [lia|]);
      unfold deleted, MemHeap.destroy;
      cbn [objects set_objects set_released]; rewrite ?Hpc;
      try done; by apply stacked_filter.
Qed.

(** X20: live objects never overlap.  Starting from an arena whose live
    objects are stacked below its offset (none, for instance), after any
    calls other than initialisations during which the offset does not wrap
    around, any two live objects occupy disjoint ranges of offsets, and none
    reaches past the offset. *)
Theorem objects_never_overlap (ops : list op) :
  ∀ (h : MemHeap.t) (w : World) r h' w',
    forallb (λ o, negb (is_Initialize o)) ops = true →
    0 ≤ MemHeap.pageSize h →
    MemHeap.pageSize h + reserve_total (MemHeap.allignment h) ops < 2 ^ 64 →
    stacked (MemHeap.pageSize h) (objects w) →
    run ops h w = Some (r, h', w') →
    (∀ o, o ∈ objects w' →
       ptr_off (obj_at o) + obj_reserved o ≤ MemHeap.pageSize h')
    ∧ ∀ i j o1 o2, i ≠ j →
        objects w' !! i = Some o1 → objects w' !! j = Some o2 →
        ptr_off (obj_at o1) + obj_reserved o1 ≤ ptr_off (obj_at o2)
        ∨ ptr_off (obj_at o2) + obj_reserved o2 ≤ ptr_off (obj_at o1).
Proof.
  assert (∀ h w r h' w',
    forallb (λ o, negb (is_Initialize o)) ops = true →
    0 ≤ MemHeap.pageSize h →
    MemHeap.pageSize h + reserve_total (MemHeap.allignment h) ops < 2 ^ 64 →
    stacked (MemHeap.pageSize h) (objects w) →
    run ops h w = Some (r, h', w') →
    stacked (MemHeap.pageSize h') (objects w')) as Hinv.
  { induction ops as [|o ops IH]; intros h w r h' w' Hno H0 Hlt Hst.
    - by intros [= <- <- <-].
    - cbn [run]. cbn in Hno. apply andb_true_iff in Hno as [Hno1 Hno].
      apply negb_true_iff in Hno1.
      destruct (step o h w) as [[[[e p] h1] w1]|] eqn:Hs; [|done].
      cbn [mbind option_bind].
      destruct (run ops h1 w1) as [[[r2 h2] w2]|] eqn:Hrun; [|done].
      cbn. intros [= <- <- <-].
      pose proof (reserve_total_nonneg (MemHeap.allignment h) ops) as Hrest.
      assert (reserve_total (MemHeap.allignment h) (o :: ops)
              = reserve_total (MemHeap.allignment h) [o]
                + reserve_total (MemHeap.allignment h) ops) as Hsplit.
      { destruct o; cbn; lia. }
      apply step_stacked in Hs as (Hal & Hle & Hub & Hst1);
        [|done|done|lia|done].
      eapply (IH h1 w1); [done|lia| |done|exact Hrun].
      rewrite Hal. lia. }
  intros h w r h' w' Hno H0 Hlt Hst Hrun.
  pose proof (Hinv h w r h' w' Hno H0 Hlt Hst Hrun) as Hfinal.
  split.
  - intros o Ho. by apply (stacked_below _ _ o Hfinal).
  - intros i j o1 o2 Hij Hi Hj.
    destruct (decide (i < j)%nat).
    + right. by eapply (stacked_disjoint _ _ i j).
    + left. eapply (stacked_disjoint _ _ j i); eauto with lia.
Qed.

Lemma objects_never_overlap_witness :
  ∃ r h' w',
    run [T40; T8; T56; Dealloc 40 (Some (obj_at obj0))]
      (arena 0 None) world1 = Some (r, h', w')
    ∧ r !! 0%nat = Some (MEMERR_NO_ERR, Some (obj_at obj0))
    ∧ length (objects w') = 2%nat
    ∧ ∀ o, o ∈ objects w' →
        ptr_off (obj_at o) + obj_reserved o ≤ MemHeap.pageSize h'.
Proof.
  destruct (run [T40; T8; T56; Dealloc 40 (Some (obj_at obj0))]
              (arena 0 None) world1) as [[[r h'] w']|] eqn:Hrun;
    [|vm_compute in Hrun; discriminate Hrun].
  exists r, h', w'. split; [reflexivity|].
  split; [vm_compute in Hrun; by injection Hrun as <- _ _|].
  split; [vm_compute in Hrun; by injection Hrun as _ _ <-|].
  destruct (objects_never_overlap
              [T40; T8; T56; Dealloc 40 (Some (obj_at obj0))]
              (arena 0 None) world1 r h' w') as [Hbelow _].
  - reflexivity.
  - cbn. lia.
  - vm_compute. reflexivity.
  - exact I.
  - exact Hrun.
  - exact Hbelow.
Defined.

(** ** Calls with and without a sink *)

Lemma same_but_memory_refl (w : World) : same_but_memory w w.
Proof. by repeat split. Qed.

Lemma page_request_Returns_world (size : Z) (h : MemHeap.t) (w : World) h1 w1 :
  page_request size Returns h w = Some (h1, w1) → same_but_memory w w1.
Proof.
  unfold page_request, MemHeap.AllocatePage.
  destruct (_ <? _); [|by intros [= <- <-]].
  destruct (_ >? _); cbn; by intros [= <- <-].
Qed.

Lemma page_request_no_sink (size : Z) (o : Outcome) (h : MemHeap.t) (w : World)
    h1 w1 :
  MemHeap.callback h = None →
  page_request size o h w = Some (h1, w1) → same_but_memory w w1.
Proof.
  intros Hcb. unfold page_request, MemHeap.AllocatePage, MemHeap.report_mem_err.
  destruct (_ <? _); [|by intros [= <- <-]].
  cbn [MemHeap.callback MemHeap.set_numOfPages]. rewrite Hcb.
  destruct (_ >? _); [by intros [= <- <-]|].
  destruct o; cbn; by intros [= <- <-].
Qed.

(** X21: without a sink nothing is reported.  On an arena with no sink
    attached, [Allocate] and [Deallocate], whatever they return, leave the
    counters, the files and the console as they were. *)
Theorem no_sink_no_events (sizeofT : Z) (c o : Outcome) (p : option ptr)
    (h : MemHeap.t) (w : World) e p' h' w' :
  MemHeap.callback h = None →
  MemHeap.Allocate sizeofT c o p h w = Some (e, p', h', w')
  ∨ MemHeap.Deallocate sizeofT p h w = Some (e, p', h', w') →
  same_but_memory w w'.
Proof.
  intros Hcb [HA|HD].
  - rewrite Allocate_eq in HA. destruct (_ =? 0); [done|]. cbn zeta in HA.
    destruct (page_request _ o h w) as [[h1 w1]|] eqn:Hp; [|done].
    pose proof (page_request_no_sink _ _ _ _ _ _ Hcb Hp) as Hw1.
    apply page_request_frame in Hp as [(_ & _ & Hcb1 & _) _].
    rewrite Hcb in Hcb1. cbn in HA.
    destruct (guard p h1); [by injection HA as <- <- <- <-|].
    unfold construct, MemHeap.report_mem_err in HA. cbn in HA.
    rewrite Hcb1 in HA.
    destruct c; cbn in HA; injection HA as <- <- <- <-; exact Hw1.
  - unfold MemHeap.Deallocate in HD. rewrite Hcb in HD.
    destruct p as [q|]; cbn [mbind option_bind] in HD.
    + destruct (MemHeap.delete_expr q w) as [w2|] eqn:Hdel; [|done].
      apply delete_expr_Some in Hdel as (pg & _ & _ & _ & ->).
      cbn in HD. injection HD as <- <- <- <-. by repeat split.
    + rewrite decide_False in HD by not_ne.
      injection HD as <- <- <- <-. by repeat split.
Qed.

Lemma no_sink_no_events_witness :
  ∃ p' h' w',
    MemHeap.Allocate 40 Returns Returns None (arena 0 None) world1
    = Some (MEMERR_NO_ERR, p', h', w')
    ∧ same_but_memory world1 w'.
Proof.
  destruct (MemHeap.Allocate 40 Returns Returns None (arena 0 None) world1)
    as [[[[e p'] h'] w']|] eqn:HA; [|vm_compute in HA; discriminate HA].
  assert (e = MEMERR_NO_ERR) as ->.
  { vm_compute in HA. by injection HA as <- _ _ _. }
  exists p', h', w'. split; [reflexivity|].
  apply (no_sink_no_events 40 Returns Returns None (arena 0 None) world1
           MEMERR_NO_ERR p' h' w' eq_refl). left. exact HA.
Defined.

(** X22: a constructor that throws.  Whatever [Allocate] then returns, the
    slot, the offset and the live objects are as they were; without a sink
    the result is [MEMERR_OUT_OF_MEM] for [std::bad_alloc] and
    [MEMERR_UNKNOWN] for another exception, unless the guard against a slot
    in use stopped the call first. *)
Theorem throwing_constructor (sizeofT : Z) (c o : Outcome) (p : option ptr)
    (h : MemHeap.t) (w : World) e p' h' w' :
  c ≠ Returns →
  MemHeap.Allocate sizeofT c o p h w = Some (e, p', h', w') →
  p' = p
  ∧ MemHeap.pageSize h' = MemHeap.pageSize h
  ∧ objects w' = objects w
  ∧ (MemHeap.callback h = None →
     e = MEMERR_DOUBLE_ALLOC
     ∨ e = match c with
           | ThrowsBadAlloc => MEMERR_OUT_OF_MEM
           | _ => MEMERR_UNKNOWN
           end).
Proof.
  intros Hc HA. split; [|split; [|split]].
  4: { intros Hcb. destruct (Allocate_codes _ _ _ _ _ _ _ _ _ _ Hcb HA) as [->| ->];
         [by left|right; by destruct c]. }
  all: rewrite Allocate_eq in HA; destruct (_ =? 0); [done|]; cbn zeta in HA;
    destruct (page_request _ o h w) as [[h1 w1]|] eqn:Hp; [|done];
    apply page_request_frame in Hp as [(_ & _ & _ & _ & Hps & _) Hob];
    cbn in HA; destruct (guard p h1);
    [injection HA as <- <- <- <-; congruence|];
    apply construct_effect in HA
      as (_ & _ & [(_ & Hp' & Hps' & Hob')|(Hret & _)]); [congruence|done].
Qed.

Lemma throwing_constructor_witness :
  MemHeap.Allocate 40 ThrowsBadAlloc Returns None (arena 0 None) world1
  = Some (MEMERR_OUT_OF_MEM, None, arena 0 None, world1).
Proof.
  destruct (MemHeap.Allocate 40 ThrowsBadAlloc Returns None (arena 0 None) world1)
    as [[[[e p'] h'] w']|] eqn:HA; [|vm_compute in HA; discriminate HA].
  assert (ThrowsBadAlloc ≠ Returns) as Hc by discriminate.
  destruct (throwing_constructor 40 ThrowsBadAlloc Returns None (arena 0 None)
              world1 e p' h' w' Hc HA) as (-> & _ & _ & _).
  vm_compute in HA. injection HA as <- <- <-. reflexivity.
Defined.

(** X23: [Deallocate] of a null handle.  The handle stays null and the
    arena is unchanged.  Without a sink the result is [MEMERR_INVALID_MEM]
    and nothing changes.  With a sink, exactly one invalid-access event is
    forwarded, whatever the flags, and the world the call leaves is the one
    that event leaves; the result is the error the sink returned, or
    [MEMERR_INVALID_MEM] when it returned none.  Through the default callback
    with a trace log on the console, that is [MEMERR_INVALID_MEM] and one
    line on the console, with the counters as they were. *)
Theorem Deallocate_null_handle (sizeofT : Z) (h : MemHeap.t) (w : World) :
  (MemHeap.callback h = None →
   MemHeap.Deallocate sizeofT None h w = Some (MEMERR_INVALID_MEM, None, h, w))
  ∧ (∀ c e w1, MemHeap.callback h = Some c →
               MemCallback.PerformCallback c MEMCALL_INVALID_MEM sizeofT w
               = Some (e, w1) →
               MemHeap.Deallocate sizeofT None h w
               = Some (if decide (e = MEMERR_NO_ERR) then MEMERR_INVALID_MEM
                       else e, None, h, w1))
  ∧ (∀ c, MemHeap.callback h = Some c →
          MemCallback.PerformCallback c MEMCALL_INVALID_MEM sizeofT w = None →
          MemHeap.Deallocate sizeofT None h w = None)
  ∧ (∀ c, MemHeap.callback h = Some c →
          MemCallback.callbackInit c = true →
          MemCallback.callback c = Some MemCallback.DefaultCallback →
          trace_callable c →
          ∃ w', MemCallback.PerformCallback c MEMCALL_INVALID_MEM sizeofT w
                = Some (MEMERR_NO_ERR, w')
                ∧ MemHeap.Deallocate sizeofT None h w
                  = Some (MEMERR_INVALID_MEM, None, h, w')
                ∧ (allocs w', deallocs w', memInUse w')
                  = (allocs w, deallocs w, memInUse w)
                ∧ objects w' = objects w)
  ∧ (∀ c tr, MemHeap.callback h = Some c →
             MemCallback.callbackInit c = true →
             MemCallback.callback c = Some MemCallback.DefaultCallback →
             MemCallback.traceClass c = Some tr →
             MemTrace.traceLog tr = true →
             MemTrace.traceFunc tr = Some MemTrace.DefaultTrace →
             is_open (MemTrace.traceFile tr) = false →
             MemHeap.Deallocate sizeofT None h w
             = Some (MEMERR_INVALID_MEM, None, h,
                     set_console (console w +:+ "Error Accessing Memory of size: "
                                  +:+ to_string sizeofT +:+ endl) w)).
Proof.
  unfold MemHeap.Deallocate. split; [|split; [|split; [|split]]].
  - by intros ->.
  - intros c e w1 -> ->. cbn [mbind option_bind].
    destruct (decide (e = MEMERR_NO_ERR)) as [->|He].
    + by rewrite decide_False by not_ne.
    + by rewrite decide_True.
  - by intros c -> ->.
  - intros c -> Hi Hc Ht.
    destruct (PerformCallback_default c MEMCALL_INVALID_MEM sizeofT w Hi Hc Ht)
      as (w' & Hp & Hcnt).
    rewrite Hp. cbn. rewrite decide_False by not_ne.
    exists w'. split; [done|]. split; [done|]. split; [exact Hcnt|].
    by apply PerformCallback_objects in Hp as [-> _].
  - intros c tr -> Hi Hc Ht Hl Hf Ho.
    unfold MemCallback.PerformCallback, MemCallback.call_callback.
    rewrite Hi, Hc, CallbackFunc_eq, Ht.
    unfold MemTrace.LogMessage, MemTrace.call_traceFunc, MemTrace.PrintMessage.
    rewrite Hl, Hf, Ho. cbn. rewrite decide_False by not_ne.
    do 2 f_equal; unfold set_console; cbn; by rewrite ?append_assoc.
Qed.

Lemma Deallocate_null_handle_witness :
  MemHeap.Deallocate 40 None (arena 0 (Some sink_console)) world1
  = Some (MEMERR_INVALID_MEM, None, arena 0 (Some sink_console),
          set_console ("Error Accessing Memory of size: 40" +:+ endl) world1)
  ∧ MemHeap.Deallocate 40 None (arena 0 (Some sink_failing)) world1
    = Some (MEMERR_CORRUPT_MEM, None, arena 0 (Some sink_failing), world1)
  ∧ MemHeap.Deallocate 40 None (arena 0 None) world1
    = Some (MEMERR_INVALID_MEM, None, arena 0 None, world1).
Proof.
  destruct (Deallocate_null_handle 40 (arena 0 (Some sink_console)) world1)
    as (_ & _ & _ & _ & Hconsole).
  destruct (Deallocate_null_handle 40 (arena 0 (Some sink_failing)) world1)
    as (_ & Hsink & _).
  destruct (Deallocate_null_handle 40 (arena 0 None) world1) as (Hnone & _).
  split; [|split].
  - rewrite (Hconsole sink_console console_trace
               eq_refl eq_refl eq_refl eq_refl eq_refl eq_refl eq_refl).
    reflexivity.
  - rewrite (Hsink sink_failing MEMERR_CORRUPT_MEM world1 eq_refl eq_refl).
    reflexivity.
  - apply Hnone. reflexivity.
Defined.

Lemma filter_all {A} (P : A → Prop) `{∀ x, Decision (P x)} (l : list A) :
  (∀ x, x ∈ l → P x) → filter P l = l.
Proof.
  induction l as [|x l IH]; intros Hall; [done|].
  rewrite filter_cons, decide_True by (apply Hall; by left).
  f_equal. apply IH. intros y Hy. apply Hall. by right.
Qed.

Lemma wrap64_add_sub_same (m s : Z) :
  0 ≤ m < 2 ^ 64 → wrap64 (wrap64 (m + s) - s) = m.
Proof.
  intros Hm. unfold wrap64.
  rewrite Zminus_mod_idemp_l. replace (m + s - s) with m by lia.
  by apply Z.mod_small.
Qed.

(** X24: allocating and then deallocating the first object of a page.  On
    an arena whose sink has the default callback and no trace log, whose
    offset is zero and whose current page is a buffer the process holds, an
    object allocated into an empty slot and then deallocated through the
    handle obtained leaves the live objects and the bytes in use as they
    were, the handle null, and one allocation and one deallocation counted.
    The offset is not given back: it stays advanced by the padded size.  The
    buffer of the page is released, while the arena keeps the page. *)
Theorem allocate_then_deallocate (sizeofT : Z) (h : MemHeap.t) (w : World)
    (c : MemCallback.t) (pg : Page) :
  let size := MemHeap.objPageSize sizeofT (MemHeap.allignment h) in
  MemHeap.allignment h ≠ 0 →
  MemHeap.memFlags h = 0 →
  MemHeap.callback h = Some c →
  MemCallback.callbackInit c = true →
  MemCallback.callback c = Some MemCallback.DefaultCallback →
  MemCallback.traceClass c = None →
  counters_in_range w →
  MemHeap.pageSize h = 0 →
  current_page h = Some pg →
  MemHeap.held pg w = true →
  (∀ o, o ∈ objects w → obj_at o ≠ place_ptr h) →
  ∃ h2 w2 w3,
    MemHeap.Allocate sizeofT Returns Returns None h w
    = Some (MEMERR_NO_ERR, Some (place_ptr h), h2, w2)
    ∧ MemHeap.Deallocate sizeofT (Some (place_ptr h)) h2 w2
      = Some (MEMERR_NO_ERR, None, h2, w3)
    ∧ objects w3 = objects w
    ∧ memInUse w3 = memInUse w
    ∧ allocs w3 = wrap32 (allocs w + 1)
    ∧ deallocs w3 = wrap32 (deallocs w + 1)
    ∧ MemHeap.pageSize h2 = size
    ∧ current_page h2 = Some pg
    ∧ released w3 = {[ page_id pg ]} ∪ released w.
Proof.
  intros size Ha Hfl Hcb Hi Hc Ht (_ & _ & Hm) Hps Hcur Hh Hfree.
  assert (page_request size Returns h w = Some (h, w)) as Hp.
  { apply page_request_none. rewrite Hps. apply objPageSize_nonneg. }
  rewrite (Allocate_after_guard _ _ _ _ _ _ h w Ha Hp).
  fold size. unfold guard, MemHeap.has_flag. rewrite Hfl.
  cbn [negb andb Z.land Z.eqb].
  assert (∀ n w0, MemCallback.PerformCallback c n sizeofT w0
                  = Some (MEMERR_NO_ERR, count_event n sizeofT w0)) as Hpc.
  { intros n w0. unfold MemCallback.PerformCallback, MemCallback.call_callback.
    by rewrite Hi, Hc, CallbackFunc_eq, Ht. }
  rewrite (construct_forwards sizeofT size None h w c MEMERR_NO_ERR
             (count_event MEMCALL_ALLOC sizeofT (placed sizeofT size h w)));
    [|exact Hcb|unfold MemHeap.has_flag; by rewrite Hfl|apply Hpc].
  eexists _, _, _. split; [reflexivity|].
  unfold MemHeap.Deallocate.
  change (MemHeap.callback (bumped size h)) with (MemHeap.callback h).
  change (MemHeap.has_flag (bumped size h) MEMFLAGS_DISABLE_DEBUG_MSG)
    with (MemHeap.has_flag h MEMFLAGS_DISABLE_DEBUG_MSG).
  rewrite Hcb. unfold MemHeap.has_flag. rewrite Hfl.
  change (negb (negb (Z.land 0 MEMFLAGS_DISABLE_DEBUG_MSG =? 0))) with true.
  rewrite Hpc. cbn [mbind option_bind].
  rewrite (delete_expr_held (place_ptr h) pg); [|exact Hcur|exact Hps|exact Hh].
  cbn [mbind option_bind].
  split; [reflexivity|].
  split.
  { unfold deleted, MemHeap.destroy, placed.
    cbn [objects set_objects set_released count_event set_counters].
    rewrite filter_cons. cbn [obj_at]. rewrite decide_False by not_ne.
    by rewrite filter_all. }
  cbn. rewrite Hps.
  repeat split; [by apply wrap64_add_sub_same| |exact Hcur].
  unfold size, MemHeap.objPageSize, wrap64. cbn. apply Z.mod_mod. lia.
Qed.

Lemma allocate_then_deallocate_witness :
  ∃ h2 w2 w3,
    MemHeap.Allocate 40 Returns Returns None (arena 0 (Some sink_plain)) world1
    = Some (MEMERR_NO_ERR, Some (obj_at obj0), h2, w2)
    ∧ MemHeap.Deallocate 40 (Some (obj_at obj0)) h2 w2
      = Some (MEMERR_NO_ERR, None, h2, w3)
    ∧ objects w3 = []
    ∧ memInUse w3 = 0
    ∧ MemHeap.pageSize h2 = 40
    ∧ current_page h2 = Some page0
    ∧ released w3 = {[ 0%nat ]}.
Proof.
  destruct (allocate_then_deallocate 40 (arena 0 (Some sink_plain)) world1
              sink_plain page0)
    as (h2 & w2 & w3 & HA & HD & Ho & Hm & _ & _ & Hps & Hcur & Hrel).
  - discriminate.
  - reflexivity.
  - reflexivity.
  - reflexivity.
  - reflexivity.
  - reflexivity.
  - unfold counters_in_range. cbn. lia.
  - reflexivity.
  - reflexivity.
  - reflexivity.
  - intros o Ho. by apply elem_of_nil in Ho.
  - exists h2, w2, w3. split; [exact HA|]. split; [exact HD|].
    split; [exact Ho|]. split; [exact Hm|]. split; [exact Hps|].
    split; [exact Hcur|]. rewrite Hrel. vm_compute. reflexivity.
Defined.

(** The destructor of a trace log leaves the stream closed and, when there
    is a trace function, logging off; path and function stay. *)
Lemma MemTrace_dtor_closes (m : MemTrace.t) :
  is_open (MemTrace.traceFile (MemTrace_dtor m)) = false
  ∧ (is_Some (MemTrace.traceFunc m) →
     MemTrace.traceLog (MemTrace_dtor m) = false)
  ∧ MemTrace.filePath (MemTrace_dtor m) = MemTrace.filePath m
  ∧ MemTrace.traceFunc (MemTrace_dtor m) = MemTrace.traceFunc m.
Proof.
  destruct m as [tl [tf|] [[q|] fb] fp]; cbn; repeat split; try done;
    by intros [].
Qed.

(** ** Witnesses of earlier properties *)

Lemma objPageSize_round_up_iff_witness :
  MemHeap.objPageSize 12 8 = round_up 12 8
  ∧ MemHeap.objPageSize 40 8 = round_up 40 8.
Proof.
  split.
  - apply (objPageSize_round_up_iff 12 8); [lia|lia|vm_compute; reflexivity|].
    right. reflexivity.
  - apply (objPageSize_round_up_iff 40 8); [lia|lia|vm_compute; reflexivity|].
    left. reflexivity.
Defined.

Lemma Allocate_page_count_witness :
  ∃ e p' h' w',
    MemHeap.Allocate 8 Returns Returns None
      (MemHeap.set_pageSize 40 (arena 0 None)) world1 = Some (e, p', h', w')
    ∧ MemHeap.numOfPages h' = 2.
Proof.
  destruct (MemHeap.Allocate 8 Returns Returns None
              (MemHeap.set_pageSize 40 (arena 0 None)) world1)
    as [[[[e p'] h'] w']|] eqn:HA; [|vm_compute in HA; discriminate HA].
  exists e, p', h', w'. split; [reflexivity|].
  rewrite (Allocate_page_count 8 Returns None
             (MemHeap.set_pageSize 40 (arena 0 None)) world1 e p' h' w');
    [reflexivity|cbn; lia|cbn; lia|exact HA].
Defined.

Lemma ClearFile_closed_then_LogMessage_witness :
  ∃ m' w' w'',
    MemTrace.ClearFile
      {| MemTrace.traceLog := true;
         MemTrace.traceFunc := Some MemTrace.DefaultTrace;
         MemTrace.traceFile := fstream_init;
         MemTrace.filePath := trace_path |} world_files
    = (MEMERR_NO_ERR, m', w')
    ∧ MemTrace.LogMessage m' "X" w' = Some (MEMERR_NO_ERR, w'')
    ∧ files w'' !! trace_path = Some ("X" +:+ endl).
Proof.
  apply (ClearFile_closed_then_LogMessage
           {| MemTrace.traceLog := true;
              MemTrace.traceFunc := Some MemTrace.DefaultTrace;
              MemTrace.traceFile := fstream_init;
              MemTrace.filePath := trace_path |} "X" world_files).
  - reflexivity.
  - reflexivity.
  - vm_compute. intros H. discriminate H.
  - reflexivity.
  - reflexivity.
Defined.
